(** * compiler.h: the 8051 compiler-dialect header, embedded in Rocq

    [compiler.h] is a header made only of preprocessor directives: an include
    guard, one [#if]/[#elif] chain that recognises the compiler by its
    predefined symbols, and in each branch the [#define]s of the macro
    interface (VECT, SBIT, SFR, SFRBIT, SFRX, SFR16, SFR16E, SFR32, SFR32E,
    ASM, __asm_begin, __asm_end).

    The embedding follows the translation phases of the C preprocessor:
    - [PP]: preprocessing tokens, a lexer for replacement lists, macro
      definitions, argument substitution, the log of [#define]s and the
      execution of directives;
    - [CompilerH]: the header itself, branch by branch, with the replacement
      lists written as the header writes them;
    - [CExpr]: integer constant expressions, as the address operands of the
      declarations are written, with the widths of the 8051 compilers;
    - [Reading]: what a declaration in a vendor's syntax binds;
    - [Contract]: the words of the interface's contract;
    - [Selection]: the dialect an assignment of the identity symbols
      selects, and the state the header leaves;
    - [Registers]: the syntax of the one-byte declarations, the packed
      constants of SDCC and the parameters a macro binds;
    - [Frame]: what a directive can add to a unit that already has
      definitions. *)

From Stdlib Require Import String Ascii List ZArith Lia Bool.
Import ListNotations.
Local Open Scope string_scope.
Local Open Scope Z_scope.

(* ================================================================== *)
(** ** Preprocessing tokens and macros *)

Module PP.

(** Integer suffixes of a pp-number. *)
Inductive suffix : Type := NoSuffix | SufU | SufL | SufUL.

(** Preprocessing tokens. A number keeps its value and its suffix; [Quote]
    is the string literal produced by the [#] operator, kept as the tokens
    it spells. *)
#[warnings="-register-all"]
Inductive token : Type :=
| Id (s : string)
| Num (n : Z) (s : suffix)
| Punct (s : string)
| Quote (ts : list token).

Definition suffix_eqb (a b : suffix) : bool :=
  match a, b with
  | NoSuffix, NoSuffix | SufU, SufU | SufL, SufL | SufUL, SufUL => true
  | _, _ => false
  end.

Fixpoint token_eqb (a b : token) : bool :=
  match a, b with
  | Id x, Id y => String.eqb x y
  | Num n s, Num m t => Z.eqb n m && suffix_eqb s t
  | Punct x, Punct y => String.eqb x y
  | Quote xs, Quote ys =>
      (fix go (l r : list token) : bool :=
         match l, r with
         | [], [] => true
         | x :: l', y :: r' => token_eqb x y && go l' r'
         | _, _ => false
         end) xs ys
  | _, _ => false
  end.

(** *** Lexer (translation phase 3) *)

Definition code (c : ascii) : nat := nat_of_ascii c.

Definition between (lo hi : nat) (c : ascii) : bool :=
  (Nat.leb lo (code c) && Nat.leb (code c) hi)%bool.

Definition is_space (c : ascii) : bool :=
  (Nat.eqb (code c) 32 || Nat.eqb (code c) 9 || Nat.eqb (code c) 10
   || Nat.eqb (code c) 13)%bool.
Definition is_digit (c : ascii) : bool := between 48 57 c.
Definition is_letter (c : ascii) : bool :=
  (between 65 90 c || between 97 122 c || Nat.eqb (code c) 95)%bool.
Definition is_word (c : ascii) : bool := (is_letter c || is_digit c)%bool.

(** Value of a digit in the given base, if it is one. *)
Definition digit_value (base : Z) (c : ascii) : option Z :=
  let v :=
    if is_digit c then Some (Z.of_nat (code c) - 48)
    else if between 97 102 c then Some (Z.of_nat (code c) - 87)
    else if between 65 70 c then Some (Z.of_nat (code c) - 55)
    else None in
  match v with
  | Some d => if d <? base then Some d else None
  | None => None
  end.

(** Longest prefix of word characters, and what follows it. *)
Fixpoint span_word (s : string) : string * string :=
  match s with
  | EmptyString => (EmptyString, EmptyString)
  | String c r =>
      if is_word c
      then let (w, r') := span_word r in (String c w, r')
      else (EmptyString, s)
  end.

(** Digits of [s] in [base], accumulated on [acc]; the rest is the suffix. *)
Fixpoint digits (base : Z) (s : string) (acc : Z) : Z * string :=
  match s with
  | EmptyString => (acc, EmptyString)
  | String c r =>
      match digit_value base c with
      | Some d => digits base r (acc * base + d)
      | None => (acc, s)
      end
  end.

Definition suffix_of (s : string) : option suffix :=
  if String.eqb s "" then Some NoSuffix
  else if (String.eqb s "U" || String.eqb s "u")%bool then Some SufU
  else if (String.eqb s "L" || String.eqb s "l")%bool then Some SufL
  else if (String.eqb s "UL" || String.eqb s "ul" || String.eqb s "LU"
           || String.eqb s "lu" || String.eqb s "Ul" || String.eqb s "uL")%bool
       then Some SufUL
  else None.

(** A pp-number that is an integer constant: hexadecimal after [0x],
    decimal otherwise. Anything else stays an uninterpreted token. *)
Definition number (w : string) : token :=
  let (v, rest) :=
    match w with
    | String c0 (String c1 r) =>
        if (Nat.eqb (code c0) 48
            && (Nat.eqb (code c1) 120 || Nat.eqb (code c1) 88))%bool
        then digits 16 r 0 else digits 10 w 0
    | _ => digits 10 w 0
    end in
  match suffix_of rest with
  | Some s => Num v s
  | None => Punct w
  end.

(** Skips to the end of a comment opened before [s]. *)
Fixpoint skip_comment (s : string) : string :=
  match s with
  | EmptyString => EmptyString
  | String c r =>
      match r with
      | String c' r' =>
          if (Nat.eqb (code c) 42 && Nat.eqb (code c') 47)%bool then r'
          else skip_comment r
      | EmptyString => EmptyString
      end
  end.

Definition starts (p s : string) : bool := String.prefix p s.

Definition drop (n : nat) (s : string) : string :=
  String.substring n (String.length s - n) s.

Fixpoint lex_fuel (fuel : nat) (s : string) : list token :=
  match fuel with
  | O => []
  | S f =>
      match s with
      | EmptyString => []
      | String c r =>
          if is_space c then lex_fuel f r
          else if starts "/*" s then lex_fuel f (skip_comment (drop 2 s))
          else if is_letter c then
            let (w, r') := span_word s in Id w :: lex_fuel f r'
          else if is_digit c then
            let (w, r') := span_word s in number w :: lex_fuel f r'
          else if starts "<<" s then Punct "<<" :: lex_fuel f (drop 2 s)
          else if starts "..." s then Punct "..." :: lex_fuel f (drop 3 s)
          else Punct (String c EmptyString) :: lex_fuel f r
      end
  end.

(** Every step consumes a character, so the length of the text is fuel
    enough. *)
Definition lex (s : string) : list token := lex_fuel (S (String.length s)) s.

(** *** Macros *)

(** [params = None] is an object-like macro; [variadic] is the [...] of a
    function-like one. *)
Record macro : Type := {
  params : option (list string);
  variadic : bool;
  body : list token
}.

Definition object_like (text : string) : macro :=
  {| params := None; variadic := false; body := lex text |}.
Definition function_like (ps : list string) (text : string) : macro :=
  {| params := Some ps; variadic := false; body := lex text |}.
Definition variadic_like (ps : list string) (text : string) : macro :=
  {| params := Some ps; variadic := true; body := lex text |}.

Fixpoint assoc {A : Type} (k : string) (l : list (string * A)) : option A :=
  match l with
  | [] => None
  | (k', v) :: l' => if String.eqb k k' then Some v else assoc k l'
  end.

(** Simultaneous substitution of the arguments for the parameters in a
    replacement list; [# p] makes a string literal of the argument. Every
    identifier of the replacement list that is the name of a parameter is
    replaced, whatever the author meant by it. *)
Fixpoint subst (ps : list (string * list token)) (b : list token)
  : list token :=
  match b with
  | [] => []
  | Id x :: tl =>
      match assoc x ps with
      | Some arg => arg ++ subst ps tl
      | None => Id x :: subst ps tl
      end
  | Punct h :: ((Id p :: rest) as tl) =>
      if String.eqb h "#" then
        match assoc p ps with
        | Some arg => Quote arg :: subst ps rest
        | None => Punct h :: subst ps tl
        end
      else Punct h :: subst ps tl
  | t :: tl => t :: subst ps tl
  end.

(** The variable arguments, with the commas that separated them. *)
Fixpoint join_commas (args : list (list token)) : list token :=
  match args with
  | [] => []
  | [a] => a
  | a :: rest => a ++ Punct "," :: join_commas rest
  end.

(** Binds the arguments of an invocation to the parameters; [None] when the
    number of arguments is wrong. *)
Fixpoint bind (ps : list string) (va : bool) (args : list (list token))
  : option (list (string * list token)) :=
  match ps, args with
  | [], [] => Some (if va then [("__VA_ARGS__", [])] else [])
  | [], _ :: _ => if va then Some [("__VA_ARGS__", join_commas args)] else None
  | p :: ps', a :: args' =>
      match bind ps' va args' with
      | Some l => Some ((p, a) :: l)
      | None => None
      end
  | _ :: _, [] => None
  end.

(** Expansion of one invocation of a function-like macro. *)
Definition expand (m : macro) (args : list (list token))
  : option (list token) :=
  match params m with
  | None => None
  | Some ps =>
      match bind ps (variadic m) args with
      | Some l => Some (subst l (body m))
      | None => None
      end
  end.

(** *** The state of the preprocessor *)

(** [defs] is the log of the [#define]s executed so far, the newest first;
    [diags] the diagnostics raised. *)
Record state : Type := {
  defs : list (string * macro);
  diags : list string
}.

Definition lookup (n : string) (st : state) : option macro :=
  assoc n (defs st).
Definition defined (n : string) (st : state) : bool :=
  match lookup n st with Some _ => true | None => false end.
Definition add_def (n : string) (m : macro) (st : state) : state :=
  {| defs := (n, m) :: defs st; diags := diags st |}.
Definition add_diag (w : string) (st : state) : state :=
  {| defs := defs st; diags := diags st ++ [w] |}.

(** Controlling expressions of the header's conditionals. *)
Inductive cond : Type :=
| Defined (s : string)            (* defined s *)
| NotDefined (s : string)         (* #ifndef s *)
| COr (c1 c2 : cond)              (* c1 || c2 *)
| NonZero (s : string)            (* #if s *)
| Greater (s : string) (n : Z).   (* #if s > n *)

(** Value of an identifier in a controlling expression: an identifier that
    is not a macro is 0; a macro must expand to an integer constant. *)
Definition value_of (s : string) (st : state) : option Z :=
  match lookup s st with
  | None => Some 0
  | Some m =>
      match params m, body m with
      | None, [Num v _] => Some v
      | _, _ => None
      end
  end.

Fixpoint eval_cond (st : state) (c : cond) : option bool :=
  match c with
  | Defined s => Some (defined s st)
  | NotDefined s => Some (negb (defined s st))
  | COr c1 c2 =>
      match eval_cond st c1, eval_cond st c2 with
      | Some a, Some b => Some (a || b)%bool
      | _, _ => None
      end
  | NonZero s =>
      match value_of s st with
      | Some v => Some (negb (v =? 0))
      | None => None
      end
  | Greater s n =>
      match value_of s st with
      | Some v => Some (n <? v)
      | None => None
      end
  end.

(** Directives. An [#if c ... #elif c' ... #else ... #endif] chain is
    [If c ... [If c' ... ...]]: the condition of an [#elif] is looked at
    only when no earlier group was taken. *)
#[warnings="-register-all"]
Inductive directive : Type :=
| Define (n : string) (m : macro)
| Warning (w : string)
| If (c : cond) (thn els : list directive).

(** Executes a directive; [None] is a controlling expression that is not an
    integer constant expression. *)
Fixpoint exec (d : directive) (st : state) : option state :=
  match d with
  | Define n m => Some (add_def n m st)
  | Warning w => Some (add_diag w st)
  | If c thn els =>
      let run :=
        fix run (ds : list directive) (st : state) : option state :=
          match ds with
          | [] => Some st
          | d' :: ds' =>
              match exec d' st with
              | Some st' => run ds' st'
              | None => None
              end
          end in
      match eval_cond st c with
      | Some true => run thn st
      | Some false => run els st
      | None => None
      end
  end.

Fixpoint run (ds : list directive) (st : state) : option state :=
  match ds with
  | [] => Some st
  | d :: ds' =>
      match exec d st with
      | Some st' => run ds' st'
      | None => None
      end
  end.

(** Invocation [n(args)] of a function-like macro in the state [st]. The
    arguments are given fully macro-expanded. *)
Definition invoke (st : state) (n : string) (args : list (list token))
  : option (list token) :=
  match lookup n st with
  | Some m => expand m args
  | None => None
  end.

(** Use of an object-like macro. *)
Definition replace (st : state) (n : string) : option (list token) :=
  match lookup n st with
  | Some m => match params m with None => Some (body m) | Some _ => None end
  | None => None
  end.

End PP.

Import PP.

(* ================================================================== *)
(** ** The header *)

Module CompilerH.

(** The branches of the header's [#if] chain, in the order of the file. *)
Inductive dialect : Type :=
| SDCC | Keil | Raisonance | IAR | Tasking | HiTech | Crossware
| Wickenhaeuser | Default.

Definition dialect_eqb (a b : dialect) : bool :=
  match a, b with
  | SDCC, SDCC | Keil, Keil | Raisonance, Raisonance | IAR, IAR
  | Tasking, Tasking | HiTech, HiTech | Crossware, Crossware
  | Wickenhaeuser, Wickenhaeuser | Default, Default => true
  | _, _ => false
  end.

Definition p_vect : list string := ["num"; "addr"].
Definition p_sbit : list string := ["name"; "addr"; "bit"].
Definition p_addr : list string := ["name"; "addr"].
Definition p_full : list string := ["name"; "fulladdr"].
Definition p_sfrbit : list string :=
  ["name"; "addr"; "bit7"; "bit6"; "bit5"; "bit4"; "bit3"; "bit2"; "bit1";
   "bit0"].

(** [#if defined SDCC || defined __SDCC], lines 75-87. *)
Definition sdcc_group : list directive := Eval vm_compute in
  [ Define "VECT" (function_like p_vect "num");
    Define "SBIT" (function_like p_sbit
      "__sbit  __at(addr+bit)                  name");
    Define "SFR" (function_like p_addr
      "__sfr   __at(addr)                      name");
    Define "SFRBIT" (function_like p_sfrbit "/* not used */");
    Define "SFRX" (function_like p_addr
      "__xdata volatile unsigned char __at(addr) name");
    Define "SFR16" (function_like p_addr
      "__sfr16 __at(((addr+1U)<<8) | addr)     name");
    Define "SFR16E" (function_like p_full
      "__sfr16 __at(fulladdr)                  name");
    Define "SFR32" (function_like p_addr
      "__sfr32 __at(((addr+3UL)<<24) | ((addr+2UL)<<16) | ((addr+1UL)<<8) | addr) name");
    Define "SFR32E" (function_like p_full
      "__sfr32 __at(fulladdr)                  name");
    Define "ASM" (variadic_like [] "__VA_ARGS__");
    Define "__asm_begin" (object_like "__asm");
    Define "__asm_end" (object_like "__endasm") ].

(** [#elif defined __CX51__], lines 92-104. *)
Definition keil_group : list directive := Eval vm_compute in
  [ Define "VECT" (function_like p_vect "num");
    Define "SBIT" (function_like p_sbit "sbit  name = addr^bit");
    Define "SFR" (function_like p_addr "sfr   name = addr");
    Define "SFRBIT" (function_like p_sfrbit "/* not used */");
    Define "SFRX" (function_like p_addr
      "volatile unsigned char xdata name _at_ addr");
    Define "SFR16" (function_like p_addr "sfr16 name = addr");
    Define "SFR16E" (function_like p_full "/* not supported */");
    Define "SFR32" (function_like p_full "/* not supported */");
    Define "SFR32E" (function_like p_full "/* not supported */");
    Define "ASM" (variadic_like [] "__VA_ARGS__");
    Define "__asm_begin" (object_like "__asm{");
    Define "__asm_end" (object_like "}") ].

(** [#elif defined __RC51__], lines 109-118. *)
Definition raisonance_group : list directive := Eval vm_compute in
  [ Define "VECT" (function_like p_vect "num");
    Define "SBIT" (function_like p_sbit
      "at (addr+bit) sbit                   name");
    Define "SFR" (function_like p_addr
      "sfr at addr                          name");
    Define "SFRBIT" (function_like p_sfrbit "/* not used */");
    Define "SFRX" (function_like p_addr
      "xdata at addr volatile unsigned char name");
    Define "SFR16" (function_like p_addr
      "sfr16 at addr                        name");
    Define "SFR16E" (function_like p_full "/* not supported */");
    Define "SFR32" (function_like p_full "/* not supported */");
    Define "SFR32E" (function_like p_full "/* not supported */") ].

(** [#elif __IAR_SYSTEMS_ICC__], lines 123-150. The replacement list of
    SFRBIT is lines 129-142 with their continuations spliced. *)
Definition iar_group : list directive := Eval vm_compute in
  [ Define "__SFRBIT_IN_USE__" (object_like "");
    Define "VECT" (function_like p_vect "addr");
    Define "SBIT" (function_like p_sbit "/* not used (to be removed) */");
    Define "SFR" (function_like p_addr
      "__sfr __no_init volatile unsigned char name @ addr");
    Define "SFRBIT" (function_like p_sfrbit
      "__sfr __no_init volatile union
       {
         unsigned char name;
         struct {
           unsigned char bit0 : 1;
           unsigned char bit1 : 1;
           unsigned char bit2 : 1;
           unsigned char bit3 : 1;
           unsigned char bit4 : 1;
           unsigned char bit5 : 1;
           unsigned char bit6 : 1;
           unsigned char bit7 : 1;
         };
       } @ addr;");
    Define "SFRX" (function_like p_addr
      "__xdata __no_init volatile unsigned char name @ addr");
    Define "SFR16" (function_like p_addr
      "__sfr __no_init volatile unsigned int  name @ addr");
    Define "SFR16E" (function_like p_full "/* not supported */");
    Define "SFR32" (function_like p_full
      "__sfr __no_init volatile unsigned long name @ addr");
    Define "SFR32E" (function_like p_full "/* not supported */");
    Define "ASM" (variadic_like [] "asm(#__VA_ARGS__);");
    Define "__asm_begin" (object_like "");
    Define "__asm_end" (object_like "") ].

(** [#elif defined _CC51], lines 155-168, with the inner [#if _CC51 > 71]. *)
Definition tasking_group : list directive := Eval vm_compute in
  [ Define "VECT" (function_like p_vect "num");
    Define "SBIT" (function_like p_sbit "_sfrbit  name _at(addr+bit)");
    Define "SFR" (function_like p_addr "_sfrbyte name _at(addr)");
    Define "SFRBIT" (function_like p_sfrbit "/* not used */");
    Define "SFRX" (function_like p_addr
      "_xdat volatile unsigned char name _at(addr)");
    If (Greater "_CC51" 71)
      [ Define "SFR16" (function_like p_addr
          "_sfrword _little name _at(addr)") ]
      [ Define "SFR16" (function_like p_addr "/* not supported */") ];
    Define "SFR16E" (function_like p_full "/* not supported */");
    Define "SFR32" (function_like p_full "/* not supported */");
    Define "SFR32E" (function_like p_full "/* not supported */") ].

(** [#elif defined HI_TECH_C], lines 173-182. *)
Definition hitech_group : list directive := Eval vm_compute in
  [ Define "VECT" (function_like p_vect "addr");
    Define "SBIT" (function_like p_sbit
      "volatile bit           name @ (addr+bit)");
    Define "SFR" (function_like p_addr
      "volatile unsigned char name @ addr");
    Define "SFRBIT" (function_like p_sfrbit "/* not used */");
    Define "SFRX" (function_like p_addr
      "volatile far unsigned char name @ addr");
    Define "SFR16" (function_like p_addr "/* not supported */");
    Define "SFR16E" (function_like p_full "/* not supported */");
    Define "SFR32" (function_like p_full "/* not supported */");
    Define "SFR32E" (function_like p_full "/* not supported */") ].

(** [#elif defined _XC51_VER], lines 187-196. *)
Definition crossware_group : list directive := Eval vm_compute in
  [ Define "VECT" (function_like p_vect "num");
    Define "SBIT" (function_like p_sbit "_sfrbit  name = (addr+bit)");
    Define "SFR" (function_like p_addr "_sfr     name = addr");
    Define "SFRBIT" (function_like p_sfrbit "/* not used */");
    Define "SFRX" (function_like p_addr
      "volatile unsigned char _xdata name _at addr");
    Define "SFR16" (function_like p_addr "_sfrword name = addr");
    Define "SFR16E" (function_like p_full "/* not supported */");
    Define "SFR32" (function_like p_full "/* not supported */");
    Define "SFR32E" (function_like p_full "/* not supported */") ].

(** [#elif defined __UC__], lines 201-210. *)
Definition wickenhaeuser_group : list directive := Eval vm_compute in
  [ Define "VECT" (function_like p_vect "addr");
    Define "SBIT" (function_like p_sbit
      "unsigned char bit  name @ (addr+bit)");
    Define "SFR" (function_like p_addr "near unsigned char name @ addr");
    Define "SFRBIT" (function_like p_sfrbit "/* not used */");
    Define "SFRX" (function_like p_addr
      "xdata volatile unsigned char name @ addr");
    Define "SFR16" (function_like p_addr "/* not supported */");
    Define "SFR16E" (function_like p_full "/* not supported */");
    Define "SFR32" (function_like p_full "/* not supported */");
    Define "SFR32E" (function_like p_full "/* not supported */") ].

(** [#else], lines 215-225. *)
Definition default_group : list directive := Eval vm_compute in
  [ Warning "unrecognized compiler";
    Define "VECT" (function_like p_vect "num");
    Define "SBIT" (function_like p_sbit "volatile bool           name");
    Define "SFR" (function_like p_addr "volatile unsigned char  name");
    Define "SFRBIT" (function_like p_sfrbit "name");
    Define "SFRX" (function_like p_addr "volatile unsigned char  name");
    Define "SFR16" (function_like p_addr "volatile unsigned short name");
    Define "SFR16E" (function_like p_full "volatile unsigned short name");
    Define "SFR32" (function_like p_full "volatile unsigned long  name");
    Define "SFR32E" (function_like p_full "volatile unsigned long  name") ].

Definition group_of (d : dialect) : list directive :=
  match d with
  | SDCC => sdcc_group
  | Keil => keil_group
  | Raisonance => raisonance_group
  | IAR => iar_group
  | Tasking => tasking_group
  | HiTech => hitech_group
  | Crossware => crossware_group
  | Wickenhaeuser => wickenhaeuser_group
  | Default => default_group
  end.

(** The controlling expression of each branch, lines 75, 92, 109, 123, 155,
    173, 187 and 201. The branch of IAR tests the value of its symbol, the
    others that theirs is defined. *)
Definition condition_of (d : dialect) : option cond :=
  match d with
  | SDCC => Some (COr (Defined "SDCC") (Defined "__SDCC"))
  | Keil => Some (Defined "__CX51__")
  | Raisonance => Some (Defined "__RC51__")
  | IAR => Some (NonZero "__IAR_SYSTEMS_ICC__")
  | Tasking => Some (Defined "_CC51")
  | HiTech => Some (Defined "HI_TECH_C")
  | Crossware => Some (Defined "_XC51_VER")
  | Wickenhaeuser => Some (Defined "__UC__")
  | Default => None
  end.

(** The chain of lines 75-227. *)
Definition chain : directive :=
  If (COr (Defined "SDCC") (Defined "__SDCC")) sdcc_group
  [If (Defined "__CX51__") keil_group
  [If (Defined "__RC51__") raisonance_group
  [If (NonZero "__IAR_SYSTEMS_ICC__") iar_group
  [If (Defined "_CC51") tasking_group
  [If (Defined "HI_TECH_C") hitech_group
  [If (Defined "_XC51_VER") crossware_group
  [If (Defined "__UC__") wickenhaeuser_group
      default_group]]]]]]].

Definition guard : macro := Eval vm_compute in object_like "".

(** The whole header: the include guard of lines 69-70 and 229 around the
    chain. *)
Definition compiler_h : directive :=
  If (NotDefined "COMPILER_H") [Define "COMPILER_H" guard; chain] [].

(** [#include <compiler.h>] *)
Definition include (st : state) : option state := exec compiler_h st.

(** [k] inclusions in a row. *)
Fixpoint include_times (k : nat) (st : state) : option state :=
  match k with
  | O => Some st
  | S k' =>
      match include st with
      | Some st' => include_times k' st'
      | None => None
      end
  end.

(** *** The compiler's predefined symbols *)

Definition vendor_symbols : list string :=
  ["SDCC"; "__SDCC"; "__CX51__"; "__RC51__"; "__IAR_SYSTEMS_ICC__"; "_CC51";
   "HI_TECH_C"; "_XC51_VER"; "__UC__"].

(** An assignment says which identity symbols the compiler predefines, and
    to which integer constant. *)
Definition assignment : Type := string -> option Z.

Definition constant (v : Z) : macro :=
  {| params := None; variadic := false; body := [Num v NoSuffix] |}.

Definition predefs (a : assignment) (l : list string)
  : list (string * macro) :=
  flat_map (fun s => match a s with
                     | Some v => [(s, constant v)]
                     | None => []
                     end) l.

(** The state in which the translation unit starts. *)
Definition predefine (a : assignment) : state :=
  {| defs := predefs a vendor_symbols; diags := [] |}.

(** The entry points of the interface. *)
Definition declarators : list string :=
  ["VECT"; "SBIT"; "SFR"; "SFRBIT"; "SFRX"; "SFR16"; "SFR16E"; "SFR32";
   "SFR32E"].
Definition assembly : list string := ["ASM"; "__asm_begin"; "__asm_end"].
Definition entry_points : list string := declarators ++ assembly.

End CompilerH.

Import CompilerH.

(* ================================================================== *)
(** ** Integer constant expressions *)

Module CExpr.

(** The address operand of a declaration is an integer constant expression
    in the operators the header uses. *)
Inductive expr : Type :=
| ENum (n : Z) (s : suffix)
| EName (x : string)
| EAdd (a b : expr)
| EShl (a b : expr)
| EXor (a b : expr)
| EOr (a b : expr).

(** Binary operators by level of precedence: [+] binds tighter than [<<],
    which binds tighter than [^], which binds tighter than [|]. *)
Definition operator (lvl : nat) (t : token)
  : option (expr -> expr -> expr) :=
  match t with
  | Punct p =>
      match lvl with
      | 1%nat => if String.eqb p "+" then Some EAdd else None
      | 2%nat => if String.eqb p "<<" then Some EShl else None
      | 3%nat => if String.eqb p "^" then Some EXor else None
      | 4%nat => if String.eqb p "|" then Some EOr else None
      | _ => None
      end
  | _ => None
  end.

(** [parse fuel lvl ts] reads the longest expression of level [lvl] at the
    head of [ts] and returns it with the tokens that follow; level 0 is a
    constant, a name or a parenthesised expression. [more] continues a
    left-associative chain at level [lvl]. *)
Fixpoint parse (fuel : nat) (lvl : nat) (ts : list token)
  : option (expr * list token) :=
  match fuel with
  | O => None
  | S f =>
      match lvl with
      | O =>
          match ts with
          | Num n s :: r => Some (ENum n s, r)
          | Id x :: r => Some (EName x, r)
          | Punct p :: r =>
              if String.eqb p "(" then
                match parse f 4 r with
                | Some (e, Punct q :: r') =>
                    if String.eqb q ")" then Some (e, r') else None
                | _ => None
                end
              else None
          | _ => None
          end
      | S l =>
          match parse f l ts with
          | Some (e, r) => more f lvl e r
          | None => None
          end
      end
  end
with more (fuel : nat) (lvl : nat) (e : expr) (ts : list token)
  : option (expr * list token) :=
  match fuel with
  | O => None
  | S f =>
      match ts with
      | t :: r =>
          match operator lvl t with
          | Some op =>
              match parse f (Nat.pred lvl) r with
              | Some (e', r') => more f lvl (op e e') r'
              | None => None
              end
          | None => Some (e, ts)
          end
      | [] => Some (e, ts)
      end
  end.

(** The expression at the head of [ts], and the rest. *)
Definition expression (ts : list token) : option (expr * list token) :=
  parse (6 * List.length ts + 6) 4 ts.

(** Integer types of the 8051 compilers: [int] has 16 bits and [long] 32. *)
Inductive ctype : Type := TInt | TUInt | TLong | TULong.

Definition bits (t : ctype) : Z :=
  match t with TInt | TUInt => 16 | TLong | TULong => 32 end.
Definition unsigned (t : ctype) : bool :=
  match t with TUInt | TULong => true | TInt | TLong => false end.

(** Conversion of a value to a type: modulo [2^bits] for the unsigned
    types, two's complement for the signed ones. *)
Definition wrap (t : ctype) (v : Z) : Z :=
  if unsigned t then v mod 2 ^ bits t
  else (v + 2 ^ (bits t - 1)) mod 2 ^ bits t - 2 ^ (bits t - 1).

(** Type of an integer constant: the first type of its list that holds the
    value. A constant without suffix takes the list of the hexadecimal
    constants, which is how addresses are written; the lists of decimal and
    hexadecimal constants agree below [2^15]. *)
Definition constant_type (n : Z) (s : suffix) : ctype :=
  match s with
  | NoSuffix =>
      if n <? 2 ^ 15 then TInt else if n <? 2 ^ 16 then TUInt
      else if n <? 2 ^ 31 then TLong else TULong
  | SufU => if n <? 2 ^ 16 then TUInt else TULong
  | SufL => if n <? 2 ^ 31 then TLong else TULong
  | SufUL => TULong
  end.

(** Usual arithmetic conversions. *)
Definition common (t1 t2 : ctype) : ctype :=
  match t1, t2 with
  | TULong, _ | _, TULong => TULong
  | TLong, _ | _, TLong => TLong
  | TUInt, _ | _, TUInt => TUInt
  | TInt, TInt => TInt
  end.

Definition arith (f : Z -> Z -> Z) (x y : ctype * Z) : ctype * Z :=
  let t := common (fst x) (fst y) in
  (t, wrap t (f (wrap t (snd x)) (wrap t (snd y)))).

(** Value and type of a constant expression; [None] for a name, which is
    not a constant, and for a shift by a negative count or by the width of
    its left operand or more. *)
Fixpoint eval (e : expr) : option (ctype * Z) :=
  match e with
  | ENum n s => Some (constant_type n s, wrap (constant_type n s) n)
  | EName _ => None
  | EAdd a b =>
      match eval a, eval b with
      | Some x, Some y => Some (arith Z.add x y)
      | _, _ => None
      end
  | EXor a b =>
      match eval a, eval b with
      | Some x, Some y => Some (arith Z.lxor x y)
      | _, _ => None
      end
  | EOr a b =>
      match eval a, eval b with
      | Some x, Some y => Some (arith Z.lor x y)
      | _, _ => None
      end
  | EShl a b =>
      match eval a, eval b with
      | Some (t, v), Some (_, n) =>
          if (0 <=? n) && (n <? bits t)
          then Some (t, wrap t (Z.shiftl v n)) else None
      | _, _ => None
      end
  end.

Definition value (e : expr) : option Z :=
  match eval e with Some (_, v) => Some v | None => None end.

End CExpr.

(* ================================================================== *)
(** ** What a declaration binds *)

Module Reading.

Import CExpr.

(** Removes the tokens [pre] from the head of [ts]. *)
Fixpoint strip (pre ts : list token) : option (list token) :=
  match pre, ts with
  | [], _ => Some ts
  | p :: pre', t :: ts' => if token_eqb p t then strip pre' ts' else None
  | _ :: _, [] => None
  end.

(** The two layouts of an absolute-address declaration in the header:
    keywords, name, separator, address; or keywords, address, keywords,
    name. *)
Inductive shape : Type :=
| NameThenAddr (kw sep : list token)
| AddrThenName (kw kw' : list token).

(** Reads a declaration of the given shape: the declared name and the
    address operand. *)
Definition read (sh : shape) (ts : list token) : option (string * expr) :=
  match sh with
  | NameThenAddr kw sep =>
      match strip kw ts with
      | Some (Id n :: r) =>
          match strip sep r with
          | Some r' =>
              match expression r' with
              | Some (e, []) => Some (n, e)
              | _ => None
              end
          | None => None
          end
      | _ => None
      end
  | AddrThenName kw kw' =>
      match strip kw ts with
      | Some r =>
          match expression r with
          | Some (e, r') =>
              match strip kw' r' with
              | Some [Id n] => Some (n, e)
              | _ => None
              end
          | None => None
          end
      | None => None
      end
  end.

(** Syntax of a 16-bit register in the SFR space, for the compilers that
    have one; [nw] is whether a Tasking compiler is newer than 7.1. *)
Definition word_syntax (d : dialect) (nw : bool) : option shape :=
  match d with
  | SDCC => Some (AddrThenName (lex "__sfr16 __at") [])
  | Keil => Some (NameThenAddr (lex "sfr16") (lex "="))
  | Raisonance => Some (AddrThenName (lex "sfr16 at") [])
  | IAR => Some (NameThenAddr (lex "__sfr __no_init volatile unsigned int")
                              (lex "@"))
  | Tasking => if nw then Some (NameThenAddr (lex "_sfrword _little")
                                             (lex "_at"))
               else None
  | Crossware => Some (NameThenAddr (lex "_sfrword") (lex "="))
  | HiTech | Wickenhaeuser | Default => None
  end.

(** Syntax of a 32-bit register in the SFR space. *)
Definition dword_syntax (d : dialect) : option shape :=
  match d with
  | SDCC => Some (AddrThenName (lex "__sfr32 __at") [])
  | IAR => Some (NameThenAddr (lex "__sfr __no_init volatile unsigned long")
                              (lex "@"))
  | _ => None
  end.

(** Syntax of a bit of the SFR space. *)
Definition bit_syntax (d : dialect) : option shape :=
  match d with
  | SDCC => Some (AddrThenName (lex "__sbit __at") [])
  | Keil => Some (NameThenAddr (lex "sbit") (lex "="))
  | Raisonance => Some (AddrThenName (lex "at") (lex "sbit"))
  | Tasking => Some (NameThenAddr (lex "_sfrbit") (lex "_at"))
  | HiTech => Some (NameThenAddr (lex "volatile bit") (lex "@"))
  | Crossware => Some (NameThenAddr (lex "_sfrbit") (lex "="))
  | Wickenhaeuser => Some (NameThenAddr (lex "unsigned char bit") (lex "@"))
  | IAR | Default => None
  end.

Definition byte (v : Z) (k : Z) : Z := Z.land (Z.shiftr v (8 * k)) 0xFF.

(** The addresses of the low and of the high byte of a 16-bit register.
    SDCC packs the two addresses in its operand, the high one in the upper
    byte (the header's example: 0x8C8A is lsb at 0x8A, msb at 0x8C); the
    other compilers take the address of the low byte and put the high byte
    next to it. *)
Definition word_bytes (d : dialect) (v : Z) : Z * Z :=
  match d with
  | SDCC => (byte v 0, byte v 1)
  | _ => (v, v + 1)
  end.

(** The addresses of the four bytes of a 32-bit register, the lowest first
    (the header's example: 0xE5E4E3E2 is lsb at 0xE2, msb at 0xE5). *)
Definition dword_bytes (d : dialect) (v : Z) : list Z :=
  match d with
  | SDCC => [byte v 0; byte v 1; byte v 2; byte v 3]
  | _ => [v; v + 1; v + 2; v + 3]
  end.

(** The byte and the position in it that a bit address of the SFR space
    designates: the bit addresses 0x80-0xFF are the bits of the registers
    whose address is a multiple of 8. *)
Definition bit_of_address (v : Z) : option (Z * Z) :=
  if (0x80 <=? v) && (v <=? 0xFF)
  then Some (Z.land v 0xF8, Z.land v 7) else None.

(** Reading of a 16-bit register declaration: name, address of the low
    byte, address of the high byte. *)
Definition read_word (d : dialect) (nw : bool) (ts : list token)
  : option (string * (Z * Z)) :=
  match word_syntax d nw with
  | Some sh =>
      match read sh ts with
      | Some (n, e) =>
          match value e with
          | Some v => Some (n, word_bytes d v)
          | None => None
          end
      | None => None
      end
  | None => None
  end.

(** Reading of a 32-bit register declaration. *)
Definition read_dword (d : dialect) (ts : list token)
  : option (string * list Z) :=
  match dword_syntax d with
  | Some sh =>
      match read sh ts with
      | Some (n, e) =>
          match value e with
          | Some v => Some (n, dword_bytes d v)
          | None => None
          end
      | None => None
      end
  | None => None
  end.

(** Reading of a bit declaration: name, byte address, position. Keil
    writes the operand [byte ^ position]; the others give the bit
    address. *)
Definition read_bit (d : dialect) (ts : list token)
  : option (string * (Z * Z)) :=
  match bit_syntax d with
  | Some sh =>
      match read sh ts with
      | Some (n, e) =>
          match d, e with
          | Keil, EXor b p =>
              match value b, value p with
              | Some vb, Some vp => Some (n, (vb, vp))
              | _, _ => None
              end
          | Keil, _ => None
          | _, _ =>
              match value e with
              | Some v =>
                  match bit_of_address v with
                  | Some bp => Some (n, bp)
                  | None => None
                  end
              | None => None
              end
          end
      | None => None
      end
  | None => None
  end.

(** The dialects in which SFR16 declares a 16-bit register at an address:
    SDCC, Keil, Raisonance, IAR, Tasking after 7.1 and Crossware. *)
Definition supports_sfr16 (d : dialect) (nw : bool) : bool :=
  match d with
  | SDCC | Keil | Raisonance | IAR | Crossware => true
  | Tasking => nw
  | HiTech | Wickenhaeuser | Default => false
  end.

(** SDCC's packed operand of a 16-bit register whose low byte is at [n]:
    [((n+1U)<<8) | n]. *)
Definition packed16 (n : Z) : expr :=
  EOr (EShl (EAdd (ENum n NoSuffix) (ENum 1 SufU)) (ENum 8 NoSuffix))
      (ENum n NoSuffix).

(** SDCC's packed operand of a 32-bit register whose lowest byte is at [n]:
    [((n+3UL)<<24) | ((n+2UL)<<16) | ((n+1UL)<<8) | n]. *)
Definition packed32 (n : Z) : expr :=
  EOr (EOr (EOr
    (EShl (EAdd (ENum n NoSuffix) (ENum 3 SufUL)) (ENum 24 NoSuffix))
    (EShl (EAdd (ENum n NoSuffix) (ENum 2 SufUL)) (ENum 16 NoSuffix)))
    (EShl (EAdd (ENum n NoSuffix) (ENum 1 SufUL)) (ENum 8 NoSuffix)))
    (ENum n NoSuffix).

(** The dialects whose SBIT is written in a bit-declaration syntax. *)
Definition supports_sbit (d : dialect) : bool :=
  match d with
  | SDCC | Keil | Raisonance | Tasking | HiTech | Crossware
  | Wickenhaeuser => true
  | IAR | Default => false
  end.

(** The bit-addressable registers of the SFR space: the addresses from 0x80
    to 0xF8 that are multiples of 8. *)
Definition bit_addressable (v : Z) : bool :=
  (0x80 <=? v) && (v <=? 0xF8) && (v mod 8 =? 0).

End Reading.

(* ================================================================== *)
(** ** The contract of the entry points *)

Module Contract.

(** A plain volatile-qualified declaration starts with [volatile]. *)
Definition volatile_declaration (ts : list token) : bool :=
  match ts with
  | Id q :: _ :: _ => String.eqb q "volatile"
  | _ => false
  end.

(** Whether [t] occurs in [ts]. *)
Definition mentions (t : token) (ts : list token) : bool :=
  existsb (token_eqb t) ts.

(** Number of arguments of the entry points that take arguments. *)
Definition arity (n : string) : nat :=
  if String.eqb n "SFRBIT" then 10%nat
  else if String.eqb n "SBIT" then 3%nat
  else 2%nat.

(** The entry points that a branch marks "not supported" or "not used":
    their replacement list is that comment alone. [nw] is whether a Tasking
    compiler is newer than 7.1. *)
Definition unsupported (d : dialect) (nw : bool) : list string :=
  match d with
  | SDCC => ["SFRBIT"]
  | Keil | Raisonance | Crossware => ["SFRBIT"; "SFR16E"; "SFR32"; "SFR32E"]
  | IAR => ["SBIT"; "SFR16E"; "SFR32E"]
  | Tasking =>
      if nw then ["SFRBIT"; "SFR16E"; "SFR32"; "SFR32E"]
      else ["SFRBIT"; "SFR16"; "SFR16E"; "SFR32"; "SFR32E"]
  | HiTech | Wickenhaeuser =>
      ["SFRBIT"; "SFR16"; "SFR16E"; "SFR32"; "SFR32E"]
  | Default => []
  end.

(** A function-like macro of [k] parameters whose replacement list is
    empty. *)
Definition empty_macro (k : nat) (o : option macro) : bool :=
  match o with
  | Some m =>
      match params m, variadic m, body m with
      | Some ps, false, [] => Nat.eqb (List.length ps) k
      | _, _, _ => false
      end
  | None => false
  end.

(** A function-like macro whose replacement list has tokens. *)
Definition nonempty_macro (o : option macro) : bool :=
  match o with
  | Some m =>
      match params m, body m with
      | Some _, _ :: _ => true
      | _, _ => false
      end
  | None => false
  end.

(** The dialects whose interrupt vectors go by number; the others go by
    address. *)
Definition by_number (d : dialect) : bool :=
  match d with
  | SDCC | Keil | Raisonance | Tasking | Crossware | Default => true
  | IAR | HiTech | Wickenhaeuser => false
  end.

(** The dialects whose branch defines ASM and the two delimiters. *)
Definition has_assembly (d : dialect) : bool :=
  match d with
  | SDCC | Keil | IAR => true
  | _ => false
  end.

(** One single-bit field of IAR's overlay. *)
Definition bit_field (f : list token) : list token :=
  lex "unsigned char" ++ f ++ lex ": 1;".

(** IAR's overlay of an 8-bit register with its bits: a volatile union of
    the register and of a structure of single-bit fields, the lowest bit
    first, placed at [addr]. *)
Definition overlay (name addr : list token) (fields : list (list token))
  : list token :=
  lex "__sfr __no_init volatile union { unsigned char" ++ name
  ++ lex "; struct {" ++ flat_map bit_field fields
  ++ lex "}; } @" ++ addr ++ lex ";".

(** What SFRBIT expands to, dialect by dialect; the arguments name the
    bits from bit 7 down to bit 0. *)
Definition sfrbit_expansion (d : dialect) (name addr : list token)
  (b7 b6 b5 b4 b3 b2 b1 b0 : list token) : list token :=
  match d with
  | IAR => overlay name addr [b0; b1; b2; b3; b4; b5; b6; b7]
  | Default => name
  | _ => []
  end.

(** No identifier of the replacement lists of [l] names a macro of [l]:
    rescanning an expansion finds no further macro of the header. *)
Definition rescan_free (l : list (string * macro)) : bool :=
  forallb (fun nm =>
    forallb (fun t => match t with
                      | Id x => match assoc x l with
                                | Some _ => false
                                | None => true
                                end
                      | _ => true
                      end) (body (snd nm))) l.

End Contract.

(* ================================================================== *)
(** ** Selection of the dialect *)

Module Selection.

Definition is_some {A : Type} (o : option A) : bool :=
  match o with Some _ => true | None => false end.

(** What a controlling expression is worth under an assignment of the
    identity symbols. *)
Fixpoint holds (a : assignment) (c : cond) : bool :=
  match c with
  | Defined s => is_some (a s)
  | NotDefined s => negb (is_some (a s))
  | COr c1 c2 => (holds a c1 || holds a c2)%bool
  | NonZero s => match a s with Some v => negb (v =? 0) | None => false end
  | Greater s n => match a s with Some v => n <? v | None => n <? 0 end
  end.

(** The branch of [d] matches when its controlling expression holds; the
    [#else] branch matches always. *)
Definition matches (a : assignment) (d : dialect) : bool :=
  match condition_of d with
  | Some c => holds a c
  | None => true
  end.

(** The fixed order of the dialects. *)
Definition order : list dialect :=
  [SDCC; Keil; Raisonance; IAR; Tasking; HiTech; Crossware; Wickenhaeuser;
   Default].

(** First match wins. *)
Definition select_dialect (a : assignment) : dialect :=
  match find (matches a) order with
  | Some d => d
  | None => Default
  end.

(** The dialects before [d] in the order. *)
Fixpoint before (d : dialect) (l : list dialect) : list dialect :=
  match l with
  | [] => []
  | x :: l' => if dialect_eqb x d then [] else x :: before d l'
  end.

(** Whether the compiler is a Tasking release after 7.1. *)
Definition newer (a : assignment) : bool := holds a (Greater "_CC51" 71).

(** The translation unit once the guard of line 70 is defined. *)
Definition guarded (a : assignment) : state :=
  add_def "COMPILER_H" guard (predefine a).

(** The translation unit in which, after the guard, the branch of [d] alone
    is compiled. *)
Definition unit_of (a : assignment) (d : dialect) : option state :=
  run (group_of d) (guarded a).

(** The descriptor of a dialect: the macros its branch defines, the newest
    first. It is what the branch, compiled alone, adds to a log that holds
    nothing but _CC51, the one symbol a branch looks at, defined above or
    up to 71 as [nw] says. *)
Definition descriptor (d : dialect) (nw : bool) : list (string * macro) :=
  match run (group_of d)
            {| defs := [("_CC51", constant (if nw then 72 else 71))];
               diags := [] |} with
  | Some st => removelast (defs st)
  | None => []
  end.

Definition diagnostics (d : dialect) : list string :=
  match d with
  | Default => ["unrecognized compiler"]
  | _ => []
  end.

(** The state the header leaves when the branch of [d] is the one
    compiled. *)
Definition installed (a : assignment) (d : dialect) : state :=
  {| defs := descriptor d (newer a) ++ defs (guarded a);
     diags := diagnostics d |}.

(** The assignment of a compiler that predefines the one symbol [s], as
    the constant [v]. *)
Definition only (s : string) (v : Z) : assignment :=
  fun x => if String.eqb x s then Some v else None.

(** The assignment of a compiler that predefines none of the symbols. *)
Definition unknown : assignment := fun _ => None.

End Selection.

Import Selection.

(* ================================================================== *)
(** ** The rest of the interface *)

Module Registers.

Import CExpr Reading.

(** Syntax of an 8-bit register of the SFR space, lines 78, 95, 112, 127,
    158, 176, 190 and 204. *)
Definition byte_syntax (d : dialect) : option shape :=
  match d with
  | SDCC => Some (AddrThenName (lex "__sfr __at") [])
  | Keil => Some (NameThenAddr (lex "sfr") (lex "="))
  | Raisonance => Some (AddrThenName (lex "sfr at") [])
  | IAR => Some (NameThenAddr (lex "__sfr __no_init volatile unsigned char")
                              (lex "@"))
  | Tasking => Some (NameThenAddr (lex "_sfrbyte") (lex "_at"))
  | HiTech => Some (NameThenAddr (lex "volatile unsigned char") (lex "@"))
  | Crossware => Some (NameThenAddr (lex "_sfr") (lex "="))
  | Wickenhaeuser => Some (NameThenAddr (lex "near unsigned char") (lex "@"))
  | Default => None
  end.

(** Syntax of an 8-bit register in external data memory, lines 80, 97, 114,
    143, 160, 178, 192 and 206. *)
Definition xdata_syntax (d : dialect) : option shape :=
  match d with
  | SDCC => Some (AddrThenName (lex "__xdata volatile unsigned char __at") [])
  | Keil => Some (NameThenAddr (lex "volatile unsigned char xdata")
                               (lex "_at_"))
  | Raisonance => Some (AddrThenName (lex "xdata at")
                                     (lex "volatile unsigned char"))
  | IAR => Some (NameThenAddr (lex "__xdata __no_init volatile unsigned char")
                              (lex "@"))
  | Tasking => Some (NameThenAddr (lex "_xdat volatile unsigned char")
                                  (lex "_at"))
  | HiTech => Some (NameThenAddr (lex "volatile far unsigned char") (lex "@"))
  | Crossware => Some (NameThenAddr (lex "volatile unsigned char _xdata")
                                    (lex "_at"))
  | Wickenhaeuser => Some (NameThenAddr (lex "xdata volatile unsigned char")
                                        (lex "@"))
  | Default => None
  end.

(** Reading of a declaration placed at an address: the name and the value
    of the address operand. *)
Definition read_at (sh : option shape) (ts : list token)
  : option (string * Z) :=
  match sh with
  | Some s =>
      match read s ts with
      | Some (n, e) =>
          match value e with
          | Some v => Some (n, v)
          | None => None
          end
      | None => None
      end
  | None => None
  end.

(** The constant in which SDCC's SFR16E takes the two addresses. *)
Definition pack16 (lo hi : Z) : Z := Z.lor (Z.shiftl hi 8) lo.

(** The constant in which SDCC's SFR32E takes the four addresses. *)
Definition pack32 (b0 b1 b2 b3 : Z) : Z :=
  Z.lor (Z.lor (Z.lor (Z.shiftl b3 24) (Z.shiftl b2 16)) (Z.shiftl b1 8)) b0.

(** The identity symbols of each dialect, lines 75, 92, 109, 123, 155, 173,
    187 and 201. *)
Definition identity (d : dialect) : list string :=
  match d with
  | SDCC => ["SDCC"; "__SDCC"]
  | Keil => ["__CX51__"]
  | Raisonance => ["__RC51__"]
  | IAR => ["__IAR_SYSTEMS_ICC__"]
  | Tasking => ["_CC51"]
  | HiTech => ["HI_TECH_C"]
  | Crossware => ["_XC51_VER"]
  | Wickenhaeuser => ["__UC__"]
  | Default => []
  end.

(** The names that the macros of the header give to their parameters. *)
Definition parameter_names : list string :=
  p_vect ++ p_sbit ++ p_full ++ p_sfrbit ++ ["__VA_ARGS__"].

Definition among (l : list string) (x : string) : bool :=
  existsb (String.eqb x) l.

Definition bound_names (m : macro) : list string :=
  match params m with
  | Some ps => if variadic m then "__VA_ARGS__" :: ps else ps
  | None => []
  end.

(** The parameter names that the replacement list of [m] uses and that [m]
    does not bind. *)
Definition unbound (m : macro) : list string :=
  flat_map (fun t => match t with
                     | Id x => if among parameter_names x
                                  && negb (among (bound_names m) x)
                               then [x] else []
                     | _ => []
                     end) (body m).

End Registers.

(* ================================================================== *)
(** ** What a directive can define *)

Module Frame.

(** The names of the [#define]s that occur in a directive. *)
Fixpoint defined_names (d : directive) : list string :=
  match d with
  | Define n _ => [n]
  | Warning _ => []
  | If _ thn els =>
      flat_map defined_names thn ++ flat_map defined_names els
  end.

(** The names the header can define. *)
Definition header_names : list string :=
  nodup string_dec (defined_names compiler_h).

(** [st'] extends [st] by definitions of names of [names] and by
    diagnostics, and changes nothing else. *)
Definition extends (names : list string) (st st' : state) : Prop :=
  exists new w,
    defs st' = (new ++ defs st)%list /\
    diags st' = (diags st ++ w)%list /\
    forall k, In k (map fst new) -> In k names.

(** The empty object-like macro of [#define X]. *)
Definition empty_definition : macro :=
  {| params := None; variadic := false; body := [] |}.

End Frame.

(* ================================================================== *)
(** ** Facts on the preprocessor and on the selection *)

Example lex_sdcc_sfr16 :
  lex "__sfr16 __at(((addr+1U)<<8) | addr)     name" =
  [Id "__sfr16"; Id "__at"; Punct "("; Punct "("; Punct "("; Id "addr";
   Punct "+"; Num 1 SufU; Punct ")"; Punct "<<"; Num 8 NoSuffix; Punct ")";
   Punct "|"; Id "addr"; Punct ")"; Id "name"].
Proof. vm_compute. reflexivity. Qed.

Example lex_comment : lex "/* not supported */" = [].
Proof. vm_compute. reflexivity. Qed.

Example lex_hex : lex "0xE5E4E3E2 0x8C8A 3UL" =
  [Num 0xE5E4E3E2 NoSuffix; Num 0x8C8A NoSuffix; Num 3 SufUL].
Proof. vm_compute. reflexivity. Qed.

Example lex_asm : lex "asm(#__VA_ARGS__);" =
  [Id "asm"; Punct "("; Punct "#"; Id "__VA_ARGS__"; Punct ")"; Punct ";"].
Proof. vm_compute. reflexivity. Qed.

Lemma exec_If (c : cond) (thn els : list directive) (st : state) :
  exec (If c thn els) st =
  match eval_cond st c with
  | Some true => run thn st
  | Some false => run els st
  | None => None
  end.
Proof. reflexivity. Qed.

Lemma assoc_predefs (a : assignment) (s : string) (l : list string) :
  assoc s (predefs a l) =
  if existsb (String.eqb s) l then option_map constant (a s) else None.
Proof.
  induction l as [|s' l IH]; [reflexivity|].
  unfold predefs in *. cbn [flat_map existsb].
  destruct (String.eqb s s') eqn:E.
  - apply String.eqb_eq in E. subst s'. cbn [orb].
    destruct (a s) as [v|] eqn:Ha.
    + cbn [app assoc]. rewrite String.eqb_refl. reflexivity.
    + cbn [app]. rewrite IH. rewrite ?Ha. destruct (existsb _ l); reflexivity.
  - cbn [orb]. destruct (a s') as [v|].
    + cbn [app assoc]. rewrite E. exact IH.
    + exact IH.
Qed.

(** After the guard, a vendor symbol is defined as the assignment says. *)
Lemma lookup_guarded (a : assignment) (s : string) :
  In s vendor_symbols ->
  lookup s (guarded a) = option_map constant (a s).
Proof.
  intros H. unfold lookup, guarded, add_def, predefine. cbn [defs assoc].
  replace (String.eqb s "COMPILER_H") with false.
  - rewrite assoc_predefs.
    replace (existsb (String.eqb s) vendor_symbols) with true; [reflexivity|].
    symmetry. apply existsb_exists. exists s. split; [exact H|].
    apply String.eqb_refl.
  - cbn in H. repeat (destruct H as [<-|H]; [reflexivity|]). destruct H.
Qed.

(** Names that are not vendor symbols are not predefined. *)
Lemma lookup_predefine_other (a : assignment) (s : string) :
  existsb (String.eqb s) vendor_symbols = false ->
  lookup s (predefine a) = None.
Proof.
  intros H. unfold lookup, predefine. cbn [defs].
  rewrite assoc_predefs, H. reflexivity.
Qed.

Fixpoint symbols (c : cond) : list string :=
  match c with
  | Defined s | NotDefined s | NonZero s | Greater s _ => [s]
  | COr c1 c2 => symbols c1 ++ symbols c2
  end.

(** The controlling expressions over vendor symbols are worth, in a state
    that defines these symbols as the assignment does, what [holds] says. *)
Lemma eval_cond_holds (a : assignment) (st : state) (c : cond) :
  (forall s, In s (symbols c) -> lookup s st = option_map constant (a s)) ->
  eval_cond st c = Some (holds a c).
Proof.
  induction c as [s|s|c1 IH1 c2 IH2|s|s n]; intros H; cbn [eval_cond holds].
  - unfold defined. rewrite (H s (or_introl eq_refl)).
    destruct (a s); reflexivity.
  - unfold defined. rewrite (H s (or_introl eq_refl)).
    destruct (a s); reflexivity.
  - rewrite IH1, IH2; [reflexivity| |];
      intros s Hs; apply H; cbn [symbols]; apply in_or_app; auto.
  - unfold value_of. rewrite (H s (or_introl eq_refl)).
    destruct (a s); reflexivity.
  - unfold value_of. rewrite (H s (or_introl eq_refl)).
    destruct (a s); reflexivity.
Qed.

Lemma eval_guarded (a : assignment) (d : dialect) (c : cond) :
  condition_of d = Some c -> eval_cond (guarded a) c = Some (holds a c).
Proof.
  intros H. apply eval_cond_holds. intros s Hs. apply lookup_guarded.
  destruct d; inversion H; subst c; cbn in Hs |- *; tauto.
Qed.

Lemma run_single (d : directive) (st : state) : run [d] st = exec d st.
Proof. cbn [run]. destruct (exec d st); reflexivity. Qed.

(** The chain compiles the branch of the selected dialect and no other. *)
Lemma chain_selected (a : assignment) :
  exec chain (guarded a) = unit_of a (select_dialect a).
Proof.
  unfold chain, select_dialect, unit_of, order. cbn [find].
  unfold matches.
  rewrite exec_If, (eval_guarded a SDCC _ eq_refl). cbn [condition_of].
  destruct (holds a (COr (Defined "SDCC") (Defined "__SDCC")));
    [reflexivity|].
  rewrite run_single, exec_If, (eval_guarded a Keil _ eq_refl).
  destruct (holds a (Defined "__CX51__")); [reflexivity|].
  rewrite run_single, exec_If, (eval_guarded a Raisonance _ eq_refl).
  destruct (holds a (Defined "__RC51__")); [reflexivity|].
  rewrite run_single, exec_If, (eval_guarded a IAR _ eq_refl).
  destruct (holds a (NonZero "__IAR_SYSTEMS_ICC__")); [reflexivity|].
  rewrite run_single, exec_If, (eval_guarded a Tasking _ eq_refl).
  destruct (holds a (Defined "_CC51")); [reflexivity|].
  rewrite run_single, exec_If, (eval_guarded a HiTech _ eq_refl).
  destruct (holds a (Defined "HI_TECH_C")); [reflexivity|].
  rewrite run_single, exec_If, (eval_guarded a Crossware _ eq_refl).
  destruct (holds a (Defined "_XC51_VER")); [reflexivity|].
  rewrite run_single, exec_If, (eval_guarded a Wickenhaeuser _ eq_refl).
  destruct (holds a (Defined "__UC__")); reflexivity.
Qed.

Lemma unit_installed (a : assignment) (d : dialect) :
  unit_of a d = Some (installed a d).
Proof.
  unfold unit_of, installed.
  destruct d; try reflexivity.
  unfold group_of, tasking_group.
  cbn [run exec add_def defs diags].
  rewrite (eval_cond_holds a).
  - fold (newer a). destruct (newer a); reflexivity.
  - intros s [<-|[]].
    exact (lookup_guarded a "_CC51" ltac:(cbn; tauto)).
Qed.

(** The first inclusion in a translation unit: the guard is defined and the
    branch of the selected dialect is compiled. *)
Lemma include_installed (a : assignment) :
  include (predefine a) = Some (installed a (select_dialect a)).
Proof.
  unfold include, compiler_h. rewrite exec_If.
  cbn [eval_cond]. unfold defined.
  rewrite (lookup_predefine_other a "COMPILER_H" eq_refl).
  cbn [negb run exec]. fold (guarded a). rewrite chain_selected.
  rewrite unit_installed. reflexivity.
Qed.

(** Once the header has been included, the guard is defined. *)
Lemma guard_installed (a : assignment) (d : dialect) :
  defined "COMPILER_H" (installed a d) = true.
Proof.
  unfold defined, lookup, installed. cbn [defs].
  destruct d, (newer a); reflexivity.
Qed.

Lemma include_again (a : assignment) (d : dialect) :
  include (installed a d) = Some (installed a d).
Proof.
  unfold include, compiler_h. rewrite exec_If. cbn [eval_cond].
  rewrite guard_installed. reflexivity.
Qed.

Lemma assoc_app {A : Type} (k : string) (l1 l2 : list (string * A)) :
  assoc k (l1 ++ l2) =
  match assoc k l1 with Some v => Some v | None => assoc k l2 end.
Proof.
  induction l1 as [|[k' v] l1 IH]; [reflexivity|].
  cbn [app assoc]. destruct (String.eqb k k'); [reflexivity|exact IH].
Qed.

(** An entry point is looked up in the descriptor of the compiled branch:
    neither the guard nor a predefined symbol has its name. *)
Lemma lookup_installed (a : assignment) (d : dialect) (n : string) :
  existsb (String.eqb n) ("COMPILER_H" :: vendor_symbols) = false ->
  lookup n (installed a d) = assoc n (descriptor d (newer a)).
Proof.
  intros H. unfold lookup, installed. cbn [defs].
  rewrite assoc_app. destruct (assoc n (descriptor d (newer a))) as [m|];
    [reflexivity|].
  unfold guarded, add_def. cbn [defs assoc].
  cbn [existsb] in H. apply orb_false_elim in H. destruct H as [H1 H2].
  rewrite H1. exact (lookup_predefine_other a n H2).
Qed.

Lemma invoke_installed (a : assignment) (d : dialect) (n : string)
  (args : list (list token)) :
  existsb (String.eqb n) ("COMPILER_H" :: vendor_symbols) = false ->
  invoke (installed a d) n args =
  match assoc n (descriptor d (newer a)) with
  | Some m => expand m args
  | None => None
  end.
Proof. intros H. unfold invoke. rewrite lookup_installed by exact H. reflexivity. Qed.

(** A property checked on every integer of a range holds on the range. *)
Lemma range_forallb (P : Z -> bool) (lo : Z) (len : nat) :
  forallb P (map (fun i => lo + Z.of_nat i) (seq 0 len)) = true ->
  forall n, lo <= n < lo + Z.of_nat len -> P n = true.
Proof.
  intros H n Hn. rewrite forallb_forall in H. apply H.
  apply in_map_iff. exists (Z.to_nat (n - lo)). split; [lia|].
  apply in_seq. lia.
Qed.

Import CExpr Reading Contract.
Local Open Scope list_scope.

(** The replacement lists of a branch name no macro of the branch: an
    expansion needs no second pass. *)
Lemma descriptors_rescan_free (d : dialect) (nw : bool) :
  rescan_free (descriptor d nw) = true.
Proof. destruct d, nw; vm_compute; reflexivity. Qed.

(* ================================================================== *)
(** ** SFR16: two adjacent bytes, the low one first *)

(** The value of SDCC's packed operand, for every address up to 0xFE. *)
Lemma packed16_value (n : Z) :
  0 <= n <= 0xFE ->
  value (packed16 n) = Some (Z.lor (Z.shiftl (n + 1) 8) n) /\
  Z.land (Z.shiftl (n + 1) 8) n = 0 /\
  byte (Z.lor (Z.shiftl (n + 1) 8) n) 0 = n /\
  byte (Z.lor (Z.shiftl (n + 1) 8) n) 1 = n + 1.
Proof.
  intros H.
  pose (P := fun n =>
    (match value (packed16 n) with
     | Some v => v =? Z.lor (Z.shiftl (n + 1) 8) n
     | None => false
     end
     && (Z.land (Z.shiftl (n + 1) 8) n =? 0)
     && (byte (Z.lor (Z.shiftl (n + 1) 8) n) 0 =? n)
     && (byte (Z.lor (Z.shiftl (n + 1) 8) n) 1 =? n + 1))%bool).
  assert (HP : P n = true).
  { apply (range_forallb P 0 255); [vm_compute; reflexivity|lia]. }
  unfold P in HP.
  destruct (value (packed16 n)) as [v|]; [|discriminate HP].
  repeat (apply andb_prop in HP; destruct HP as [HP ?]).
  apply Z.eqb_eq in HP. subst v. repeat split; apply Z.eqb_eq; assumption.
Qed.

(** The address operand of a byte address is worth the address. *)
Lemma value_address (n : Z) :
  0 <= n <= 0xFF -> value (ENum n NoSuffix) = Some n.
Proof.
  intros H. unfold value. cbn [eval]. unfold constant_type.
  replace (n <? 2 ^ 15) with true by (symmetry; apply Z.ltb_lt; lia).
  unfold wrap. cbn [unsigned bits].
  f_equal. change (2 ^ (16 - 1)) with 32768. change (2 ^ 16) with 65536.
  rewrite Z.mod_small; lia.
Qed.

Ltac compute_read :=
  match goal with
  | |- context [read ?sh ?ts] =>
      let r := eval vm_compute in (read sh ts) in
      replace (read sh ts) with r by (vm_compute; reflexivity)
  end.

Ltac compute_expansion :=
  match goal with
  | |- context [match assoc ?n (descriptor ?d ?b) with _ => _ end] =>
      let r := eval vm_compute in (assoc n (descriptor d b)) in
      replace (assoc n (descriptor d b)) with r by (vm_compute; reflexivity);
      cbv beta iota;
      match goal with
      | |- context [expand ?m ?args] =>
          let e := eval vm_compute in (expand m args) in
          replace (expand m args) with e by (vm_compute; reflexivity)
      end
  end.

Ltac compute_expansions :=
  repeat match goal with
  | |- context [expand ?m ?args] =>
      let e := eval vm_compute in (expand m args) in
      replace (expand m args) with e by (vm_compute; reflexivity)
  end.

(** C1. In every dialect that supports SFR16 and for every address from 0
    to 0xFE, the expansion of SFR16(name, addr) declares a 16-bit register
    whose low byte is at addr and whose high byte is at addr+1; under SDCC
    the operand is the packed constant ((addr+1U)<<8) | addr, whose two
    halves share no bit, whose low byte is addr and whose high byte is
    addr+1. *)
Theorem sfr16_low_at_addr_high_next
  (a : assignment) (name : string) (addr : Z) :
  supports_sfr16 (select_dialect a) (newer a) = true ->
  0 <= addr <= 0xFE ->
  exists st ts,
    include (predefine a) = Some st /\
    invoke st "SFR16" [[Id name]; [Num addr NoSuffix]] = Some ts /\
    read_word (select_dialect a) (newer a) ts
      = Some (name, (addr, addr + 1)) /\
    (select_dialect a = SDCC ->
     read (AddrThenName (lex "__sfr16 __at") []) ts
       = Some (name, packed16 addr) /\
     value (packed16 addr) = Some (Z.lor (Z.shiftl (addr + 1) 8) addr) /\
     Z.land (Z.shiftl (addr + 1) 8) addr = 0 /\
     byte (Z.lor (Z.shiftl (addr + 1) 8) addr) 0 = addr /\
     byte (Z.lor (Z.shiftl (addr + 1) 8) addr) 1 = addr + 1).
Proof.
  intros Hs Ha.
  destruct (packed16_value addr Ha) as (Hv & Hd & Hlo & Hhi).
  assert (Hn : value (ENum addr NoSuffix) = Some addr)
    by (apply value_address; lia).
  exists (installed a (select_dialect a)).
  rewrite include_installed, invoke_installed by reflexivity.
  destruct (select_dialect a), (newer a); try discriminate Hs;
    compute_expansion; eexists; (split; [reflexivity|]);
    (split; [reflexivity|]);
    (split; [|try discriminate]);
    unfold read_word; cbn [word_syntax]; compute_read; cbv beta iota.
  all: try (rewrite Hn; reflexivity).
  all: try (fold (packed16 addr); rewrite Hv; cbn [word_bytes];
            rewrite Hlo, Hhi; reflexivity).
  all: intros _; fold (packed16 addr); auto.
Qed.

Lemma sfr16_low_at_addr_high_next_witness :
  supports_sfr16 (select_dialect (only "SDCC" 290)) (newer (only "SDCC" 290))
    = true /\
  0 <= 0xCC <= 0xFE /\
  exists st ts,
    include (predefine (only "SDCC" 290)) = Some st /\
    invoke st "SFR16" [[Id "TMR2"]; [Num 0xCC NoSuffix]] = Some ts /\
    read_word (select_dialect (only "SDCC" 290)) (newer (only "SDCC" 290)) ts
      = Some ("TMR2", (0xCC, 0xCC + 1)) /\
    (select_dialect (only "SDCC" 290) = SDCC ->
     read (AddrThenName (lex "__sfr16 __at") []) ts
       = Some ("TMR2", packed16 0xCC) /\
     value (packed16 0xCC) = Some (Z.lor (Z.shiftl (0xCC + 1) 8) 0xCC) /\
     Z.land (Z.shiftl (0xCC + 1) 8) 0xCC = 0 /\
     byte (Z.lor (Z.shiftl (0xCC + 1) 8) 0xCC) 0 = 0xCC /\
     byte (Z.lor (Z.shiftl (0xCC + 1) 8) 0xCC) 1 = 0xCC + 1).
Proof.
  split; [reflexivity|]. split; [lia|].
  apply (sfr16_low_at_addr_high_next (only "SDCC" 290) "TMR2" 0xCC);
    [reflexivity|lia].
Defined.

(* ================================================================== *)
(** ** SFR32: four bytes *)

(** The value of SDCC's packed operand, for every address up to 0xFC. *)
Lemma packed32_value (n : Z) :
  0 <= n <= 0xFC ->
  exists v, value (packed32 n) = Some v /\
            dword_bytes SDCC v = [n; n + 1; n + 2; n + 3].
Proof.
  intros H.
  pose (P := fun n =>
    match value (packed32 n) with
    | Some v => ((byte v 0 =? n) && (byte v 1 =? n + 1)
                 && (byte v 2 =? n + 2) && (byte v 3 =? n + 3))%bool
    | None => false
    end).
  assert (HP : P n = true).
  { apply (range_forallb P 0 253); [vm_compute; reflexivity|lia]. }
  unfold P in HP.
  destruct (value (packed32 n)) as [v|]; [|discriminate HP].
  exists v. split; [reflexivity|].
  repeat (apply andb_prop in HP; destruct HP as [HP ?]).
  cbn [dword_bytes].
  repeat match goal with H : (_ =? _) = true |- _ =>
    apply Z.eqb_eq in H; rewrite H; clear H end.
  reflexivity.
Qed.

(** Under SDCC, SFR32(name, addr) declares a 32-bit register whose bytes
    are at addr, addr+1, addr+2 and addr+3, for every address up to 0xFC. *)
Lemma sdcc_sfr32_ascending (a : assignment) (name : string) (addr : Z) :
  select_dialect a = SDCC ->
  0 <= addr <= 0xFC ->
  exists st ts,
    include (predefine a) = Some st /\
    invoke st "SFR32" [[Id name]; [Num addr NoSuffix]] = Some ts /\
    read_dword SDCC ts = Some (name, [addr; addr + 1; addr + 2; addr + 3]).
Proof.
  intros Hd Ha. destruct (packed32_value addr Ha) as (v & Hv & Hb).
  exists (installed a (select_dialect a)).
  rewrite include_installed, invoke_installed by reflexivity.
  rewrite Hd. destruct (newer a); compute_expansion; eexists;
    (split; [reflexivity|]); (split; [reflexivity|]);
    unfold read_dword; cbn [dword_syntax]; compute_read; cbv beta iota;
    fold (packed32 addr); rewrite Hv, Hb; reflexivity.
Qed.

(** C2. Under IAR the replacement list of SFR32 names [addr], which is not
    a parameter of the macro: whatever the address argument, SFR32(MAC0ACC,
    x) expands to a declaration placed at the identifier addr, and no
    address can be read from it. *)
Theorem iar_sfr32_drops_its_address (x : list token) :
  exists st,
    include (predefine (only "__IAR_SYSTEMS_ICC__" 8)) = Some st /\
    select_dialect (only "__IAR_SYSTEMS_ICC__" 8) = IAR /\
    invoke st "SFR32" [[Id "MAC0ACC"]; x]
      = Some (lex "__sfr __no_init volatile unsigned long MAC0ACC @ addr") /\
    read_dword IAR
      (lex "__sfr __no_init volatile unsigned long MAC0ACC @ addr") = None.
Proof.
  eexists. split; [apply include_installed|].
  split; [reflexivity|].
  rewrite invoke_installed by reflexivity.
  split; vm_compute; reflexivity.
Qed.

(* ================================================================== *)
(** ** The default dialect *)

Lemma select_unknown (a : assignment) :
  (forall s, In s vendor_symbols -> a s = None) ->
  select_dialect a = Default.
Proof.
  intros H. unfold select_dialect, order, matches. cbn [find condition_of holds].
  rewrite !H by (cbn; tauto). reflexivity.
Qed.

(** C3, as amended. When no vendor symbol is defined, the default dialect
    is selected and the warning is raised; SBIT, SFR, SFRX, SFR16, SFR16E,
    SFR32 and SFR32E expand to [volatile], a type and the name, in which no
    address or bit argument appears; VECT expands to its number and SFRBIT
    to the bare name; ASM and the two delimiters are not defined. *)
Theorem default_dialect_declares_without_address (a : assignment) :
  (forall s, In s vendor_symbols -> a s = None) ->
  select_dialect a = Default /\
  exists st,
    include (predefine a) = Some st /\
    diags st = ["unrecognized compiler"] /\
    (forall name addr bit,
       invoke st "SBIT" [name; addr; bit] = Some (lex "volatile bool" ++ name)) /\
    (forall name addr,
       invoke st "SFR" [name; addr]
         = Some (lex "volatile unsigned char" ++ name) /\
       invoke st "SFRX" [name; addr]
         = Some (lex "volatile unsigned char" ++ name) /\
       invoke st "SFR16" [name; addr]
         = Some (lex "volatile unsigned short" ++ name) /\
       invoke st "SFR16E" [name; addr]
         = Some (lex "volatile unsigned short" ++ name) /\
       invoke st "SFR32" [name; addr]
         = Some (lex "volatile unsigned long" ++ name) /\
       invoke st "SFR32E" [name; addr]
         = Some (lex "volatile unsigned long" ++ name)) /\
    (forall num addr, invoke st "VECT" [num; addr] = Some num) /\
    (forall name addr b7 b6 b5 b4 b3 b2 b1 b0,
       invoke st "SFRBIT" [name; addr; b7; b6; b5; b4; b3; b2; b1; b0]
         = Some name) /\
    (forall n, In n assembly -> lookup n st = None).
Proof.
  intros H. pose proof (select_unknown a H) as Hd. split; [exact Hd|].
  exists (installed a Default). rewrite include_installed, Hd.
  split; [reflexivity|]. split; [reflexivity|].
  assert (E : forall ts : list token, ts ++ [] = ts) by apply app_nil_r.
  repeat split; intros;
    try (rewrite invoke_installed by reflexivity; destruct (newer a);
         compute_expansion; rewrite E; reflexivity).
  rewrite lookup_installed.
  - destruct (newer a); cbn in H0;
      repeat (destruct H0 as [<-|H0]; [reflexivity|]); destruct H0.
  - cbn in H0. repeat (destruct H0 as [<-|H0]; [reflexivity|]). destruct H0.
Qed.

Lemma default_dialect_declares_without_address_witness :
  (forall s, In s vendor_symbols -> unknown s = None) /\
  select_dialect unknown = Default /\
  exists st,
    include (predefine unknown) = Some st /\
    diags st = ["unrecognized compiler"] /\
    (forall name addr bit,
       invoke st "SBIT" [name; addr; bit] = Some (lex "volatile bool" ++ name)) /\
    (forall name addr,
       invoke st "SFR" [name; addr]
         = Some (lex "volatile unsigned char" ++ name) /\
       invoke st "SFRX" [name; addr]
         = Some (lex "volatile unsigned char" ++ name) /\
       invoke st "SFR16" [name; addr]
         = Some (lex "volatile unsigned short" ++ name) /\
       invoke st "SFR16E" [name; addr]
         = Some (lex "volatile unsigned short" ++ name) /\
       invoke st "SFR32" [name; addr]
         = Some (lex "volatile unsigned long" ++ name) /\
       invoke st "SFR32E" [name; addr]
         = Some (lex "volatile unsigned long" ++ name)) /\
    (forall num addr, invoke st "VECT" [num; addr] = Some num) /\
    (forall name addr b7 b6 b5 b4 b3 b2 b1 b0,
       invoke st "SFRBIT" [name; addr; b7; b6; b5; b4; b3; b2; b1; b0]
         = Some name) /\
    (forall n, In n assembly -> lookup n st = None).
Proof.
  split; [intros s _; reflexivity|].
  apply (default_dialect_declares_without_address unknown).
  intros s _. reflexivity.
Defined.

(** C3, as stated, fails: in the default dialect VECT(5, 0x2B) expands to
    5 and SFRBIT(P0, 0x80, P0_7, ..., P0_0) to P0, neither of which is a
    volatile-qualified declaration, and ASM is not defined at all. *)
Lemma default_dialect_not_all_declarations :
  select_dialect unknown = Default /\
  include (predefine unknown) = Some (installed unknown Default) /\
  invoke (installed unknown Default) "VECT"
    [[Num 5 NoSuffix]; [Num 0x2B NoSuffix]] = Some [Num 5 NoSuffix] /\
  volatile_declaration [Num 5 NoSuffix] = false /\
  invoke (installed unknown Default) "SFRBIT"
    [[Id "P0"]; [Num 0x80 NoSuffix]; [Id "P0_7"]; [Id "P0_6"]; [Id "P0_5"];
     [Id "P0_4"]; [Id "P0_3"]; [Id "P0_2"]; [Id "P0_1"]; [Id "P0_0"]]
    = Some [Id "P0"] /\
  volatile_declaration [Id "P0"] = false /\
  lookup "ASM" (installed unknown Default) = None.
Proof.
  split; [reflexivity|]. split; [apply include_installed|].
  repeat split; vm_compute; reflexivity.
Qed.

(* ================================================================== *)
(** ** Entry points that a dialect does not support *)

Lemma dialect_eqb_eq (x y : dialect) : dialect_eqb x y = true <-> x = y.
Proof. split; [destruct x, y; (reflexivity || discriminate)|intros ->; destruct y; reflexivity]. Qed.

Lemma in_order (d : dialect) : In d order.
Proof. destruct d; cbn; tauto. Qed.

Lemma bind_exact (ps : list string) (args : list (list token)) :
  List.length args = List.length ps ->
  exists l, bind ps false args = Some l.
Proof.
  revert args. induction ps as [|p ps IH]; intros [|x args] H;
    try discriminate H.
  - exists []. reflexivity.
  - injection H as H. destruct (IH args H) as [l Hl].
    exists ((p, x) :: l). cbn [bind]. rewrite Hl. reflexivity.
Qed.

(** A macro whose replacement list is empty expands to nothing, whatever
    its arguments. *)
Lemma expand_empty (k : nat) (m : macro) (args : list (list token)) :
  empty_macro k (Some m) = true ->
  List.length args = k ->
  expand m args = Some [].
Proof.
  unfold empty_macro, expand. intros H Hk.
  destruct (params m) as [ps|]; [|discriminate H].
  destruct (variadic m); [discriminate H|].
  destruct (body m); [|discriminate H].
  apply Nat.eqb_eq in H. rewrite <- H in Hk.
  destruct (bind_exact ps args Hk) as [l ->]. reflexivity.
Qed.

(** The table [unsupported] is the table of the header: in every branch the
    entry points it lists are the macros with an empty replacement list,
    and the other declarators have tokens in theirs. *)
Lemma unsupported_table (d : dialect) (nw : bool) (n : string) :
  In n declarators ->
  if existsb (String.eqb n) (unsupported d nw)
  then empty_macro (arity n) (assoc n (descriptor d nw)) = true
  else nonempty_macro (assoc n (descriptor d nw)) = true.
Proof.
  intros H. cbn in H.
  destruct d, nw;
    repeat (destruct H as [<-|H]; [vm_compute; reflexivity|]); destruct H.
Qed.

Lemma unsupported_declarator (d : dialect) (nw : bool) (n : string) :
  In n (unsupported d nw) -> In n declarators.
Proof.
  destruct d, nw; cbn; intros H;
    repeat (destruct H as [<-|H]; [tauto|]); destruct H.
Qed.

Lemma declarator_free (n : string) :
  In n entry_points ->
  existsb (String.eqb n) ("COMPILER_H" :: vendor_symbols) = false.
Proof.
  cbn. intros H. repeat (destruct H as [<-|H]; [reflexivity|]). destruct H.
Qed.

(** C4, as amended. In every dialect, an entry point that the branch marks
    "not supported" or "not used" expands, whatever its arguments, to the
    empty token sequence, and the header raises no diagnostic. *)
Theorem unsupported_expands_to_nothing
  (a : assignment) (n : string) (args : list (list token)) :
  In n (unsupported (select_dialect a) (newer a)) ->
  List.length args = arity n ->
  exists st,
    include (predefine a) = Some st /\
    invoke st n args = Some [] /\
    diags st = [].
Proof.
  intros Hn Hk. exists (installed a (select_dialect a)).
  split; [apply include_installed|].
  pose proof (unsupported_declarator _ _ _ Hn) as Hdecl.
  pose proof (unsupported_table (select_dialect a) (newer a) n Hdecl) as Ht.
  replace (existsb (String.eqb n) (unsupported (select_dialect a) (newer a)))
    with true in Ht.
  - split.
    + rewrite invoke_installed
        by (apply declarator_free; unfold entry_points; apply in_or_app; auto).
      destruct (assoc n (descriptor (select_dialect a) (newer a))) as [m|];
        [|discriminate Ht].
      exact (expand_empty _ m args Ht Hk).
    + destruct (select_dialect a); try reflexivity. destruct Hn.
  - symmetry. apply existsb_exists. exists n. split; [exact Hn|].
    apply String.eqb_refl.
Qed.

Lemma unsupported_expands_to_nothing_witness :
  In "SFR16E" (unsupported (select_dialect (only "__CX51__" 1))
                           (newer (only "__CX51__" 1))) /\
  List.length [[Id "TMR0"]; [Num 0x8C8A NoSuffix]] = arity "SFR16E" /\
  exists st,
    include (predefine (only "__CX51__" 1)) = Some st /\
    invoke st "SFR16E" [[Id "TMR0"]; [Num 0x8C8A NoSuffix]] = Some [] /\
    diags st = [].
Proof.
  split; [cbn; tauto|]. split; [reflexivity|].
  apply (unsupported_expands_to_nothing (only "__CX51__" 1) "SFR16E"
           [[Id "TMR0"]; [Num 0x8C8A NoSuffix]]);
    [cbn; tauto|reflexivity].
Defined.

(** C4, as stated, fails on its own example: under IAR, SFR32 is not an
    empty macro. SFR32(MAC0ACC, 0x93) expands to a declaration, and the
    declaration names addr, which is neither a parameter of the macro nor
    in its arguments. *)
Lemma iar_sfr32_is_not_inert :
  select_dialect (only "__IAR_SYSTEMS_ICC__" 8) = IAR /\
  include (predefine (only "__IAR_SYSTEMS_ICC__" 8))
    = Some (installed (only "__IAR_SYSTEMS_ICC__" 8) IAR) /\
  existsb (String.eqb "SFR32") (unsupported IAR false) = false /\
  exists ts,
    invoke (installed (only "__IAR_SYSTEMS_ICC__" 8) IAR) "SFR32"
      [[Id "MAC0ACC"]; [Num 0x93 NoSuffix]] = Some ts /\
    ts <> [] /\
    mentions (Id "addr") ts = true /\
    existsb (String.eqb "addr") p_full = false /\
    mentions (Id "addr") [Id "MAC0ACC"; Num 0x93 NoSuffix] = false.
Proof.
  split; [reflexivity|]. split; [apply include_installed|].
  split; [reflexivity|].
  eexists. split; [vm_compute; reflexivity|].
  split; [discriminate|]. repeat split.
Qed.

(* ================================================================== *)
(** ** One dialect per translation unit *)

Lemma find_first (f : dialect -> bool) (l : list dialect) (d : dialect) :
  find f l = Some d ->
  f d = true /\ forall x, In x (before d l) -> f x = false.
Proof.
  induction l as [|x l IH]; [discriminate|].
  cbn [find before]. destruct (f x) eqn:Hx.
  - intros [= <-]. split; [exact Hx|].
    replace (dialect_eqb x x) with true
      by (symmetry; apply dialect_eqb_eq; reflexivity).
    intros y [].
  - intros H. destruct (IH H) as [Hd Hb]. split; [exact Hd|].
    destruct (dialect_eqb x d); [intros y []|].
    intros y [<-|Hy]; [exact Hx|exact (Hb y Hy)].
Qed.

Lemma first_unique (f : dialect -> bool) (l : list dialect) (d d' : dialect) :
  find f l = Some d ->
  In d' l -> f d' = true ->
  (forall x, In x (before d' l) -> f x = false) ->
  d' = d.
Proof.
  induction l as [|x l IH]; [discriminate|].
  cbn [find before]. destruct (dialect_eqb x d') eqn:E.
  - apply dialect_eqb_eq in E. subst x. intros H _ Hd' _.
    rewrite Hd' in H. congruence.
  - intros H Hin Hd' Hb. destruct (f x) eqn:Hx.
    + rewrite (Hb x (or_introl eq_refl)) in Hx. discriminate Hx.
    + destruct Hin as [->|Hin].
      * rewrite (proj2 (dialect_eqb_eq d' d') eq_refl) in E. discriminate E.
      * apply (IH H Hin Hd'). intros y Hy. apply Hb. right. exact Hy.
Qed.

Lemma find_selected (a : assignment) :
  find (matches a) order = Some (select_dialect a).
Proof.
  unfold select_dialect. destruct (find (matches a) order) eqn:E;
    [reflexivity|].
  pose proof (find_none _ _ E Default (in_order Default)) as H.
  discriminate H.
Qed.

(** C5. For every assignment of the vendor symbols, the branch that is
    compiled is the first, in the order SDCC, Keil, Raisonance, IAR,
    Tasking, Hi-Tech, Crossware, Wickenhaeuser, default, whose condition
    holds, and it is the only such branch; the header compiles this branch
    and no other, so that the log of the unit is the descriptor of this one
    dialect on top of the guard and of the predefined symbols, and every
    entry point is looked up in this descriptor. *)
Theorem one_dialect_first_match (a : assignment) :
  matches a (select_dialect a) = true /\
  (forall d, In d (before (select_dialect a) order) -> matches a d = false) /\
  (forall d, matches a d = true ->
             (forall x, In x (before d order) -> matches a x = false) ->
             d = select_dialect a) /\
  include (predefine a) = unit_of a (select_dialect a) /\
  exists st,
    include (predefine a) = Some st /\
    defs st = descriptor (select_dialect a) (newer a) ++ defs (guarded a) /\
    (forall n, In n entry_points ->
               lookup n st = assoc n (descriptor (select_dialect a) (newer a))).
Proof.
  pose proof (find_selected a) as Hf.
  destruct (find_first _ _ _ Hf) as [Hm Hb].
  split; [exact Hm|]. split; [exact Hb|]. split.
  - intros d Hd Hbd. exact (first_unique _ _ _ d Hf (in_order d) Hd Hbd).
  - split.
    + rewrite include_installed, unit_installed. reflexivity.
    + exists (installed a (select_dialect a)).
      split; [apply include_installed|]. split; [reflexivity|].
      intros n Hn. apply lookup_installed, declarator_free, Hn.
Qed.

(** The order of the chain matters when two identity symbols are defined:
    with both __CX51__ and _XC51_VER, the branch of Keil is compiled. *)
Example keil_before_crossware :
  let a := fun s => if String.eqb s "__CX51__" then Some 1
                    else if String.eqb s "_XC51_VER" then Some 1 else None in
  select_dialect a = Keil /\ matches a Crossware = true.
Proof. split; reflexivity. Qed.

(** The branch of IAR tests the value of its symbol: defined as 0, the
    symbol selects nothing and the default branch is compiled. *)
Example iar_zero_is_default :
  select_dialect (only "__IAR_SYSTEMS_ICC__" 0) = Default.
Proof. reflexivity. Qed.

(* ================================================================== *)
(** ** The entry points that are defined *)

(** C6, as amended. Under every assignment the nine declarators VECT, SBIT,
    SFR, SFRBIT, SFRX, SFR16, SFR16E, SFR32 and SFR32E are defined as
    function-like macros; ASM, __asm_begin and __asm_end are defined in the
    branches of SDCC, Keil and IAR, and in no other. *)
Theorem declarators_everywhere_assembly_in_three (a : assignment) :
  exists st,
    include (predefine a) = Some st /\
    (forall n, In n declarators ->
       exists m ps, lookup n st = Some m /\ params m = Some ps /\
                    List.length ps = arity n) /\
    (forall n, In n assembly ->
       defined n st = has_assembly (select_dialect a)).
Proof.
  exists (installed a (select_dialect a)).
  split; [apply include_installed|]. split.
  - intros n Hn.
    rewrite lookup_installed
      by (apply declarator_free; unfold entry_points; apply in_or_app; auto).
    cbn in Hn.
    destruct (select_dialect a), (newer a);
      repeat (destruct Hn as [<-|Hn];
              [eexists; eexists; split; [vm_compute; reflexivity|];
               split; reflexivity|]);
      destruct Hn.
  - intros n Hn. unfold defined.
    rewrite lookup_installed
      by (apply declarator_free; unfold entry_points; apply in_or_app; auto).
    cbn in Hn.
    destruct (select_dialect a), (newer a);
      repeat (destruct Hn as [<-|Hn]; [vm_compute; reflexivity|]);
      destruct Hn.
Qed.

(** C6, as stated, fails: the branch of Raisonance defines neither ASM nor
    the delimiters. *)
Lemma raisonance_has_no_asm :
  select_dialect (only "__RC51__" 1) = Raisonance /\
  include (predefine (only "__RC51__" 1))
    = Some (installed (only "__RC51__" 1) Raisonance) /\
  lookup "ASM" (installed (only "__RC51__" 1) Raisonance) = None /\
  lookup "__asm_begin" (installed (only "__RC51__" 1) Raisonance) = None /\
  lookup "__asm_end" (installed (only "__RC51__" 1) Raisonance) = None.
Proof.
  split; [reflexivity|]. split; [apply include_installed|].
  repeat split; vm_compute; reflexivity.
Qed.

(* ================================================================== *)
(** ** SBIT: one bit of a bit-addressable register *)

(** The bit address [addr + bit] designates bit [bit] of the register at
    [addr]. *)
Lemma bit_address_value (addr bit : Z) :
  bit_addressable addr = true -> 0 <= bit <= 7 ->
  value (EAdd (ENum addr NoSuffix) (ENum bit NoSuffix)) = Some (addr + bit) /\
  bit_of_address (addr + bit) = Some (addr, bit).
Proof.
  intros Ha Hb.
  pose (Q := fun addr bit =>
    (match value (EAdd (ENum addr NoSuffix) (ENum bit NoSuffix)) with
     | Some v => v =? addr + bit
     | None => false
     end
     && match bit_of_address (addr + bit) with
        | Some (x, y) => (x =? addr) && (y =? bit)
        | None => false
        end)%bool).
  pose (P := fun addr =>
    (negb (bit_addressable addr)
     || forallb (Q addr) (map (fun i => 0 + Z.of_nat i) (seq 0 8)))%bool).
  assert (HP : P addr = true).
  { apply (range_forallb P 0x80 121); [vm_compute; reflexivity|].
    unfold bit_addressable in Ha.
    apply andb_prop in Ha. destruct Ha as [Ha _].
    apply andb_prop in Ha. destruct Ha as [H1 H2].
    apply Z.leb_le in H1, H2. lia. }
  unfold P in HP. rewrite Ha in HP. cbn [negb orb] in HP.
  assert (HQ : Q addr bit = true)
    by (apply (range_forallb (Q addr) 0 8 HP); lia).
  unfold Q in HQ. apply andb_prop in HQ. destruct HQ as [H1 H2].
  destruct (value _) as [v|]; [|discriminate H1].
  apply Z.eqb_eq in H1. subst v. split; [reflexivity|].
  destruct (bit_of_address (addr + bit)) as [[x y]|]; [|discriminate H2].
  apply andb_prop in H2. destruct H2 as [Hx Hy].
  apply Z.eqb_eq in Hx, Hy. subst. reflexivity.
Qed.

(** Under SDCC, Keil, Raisonance, Tasking and Crossware, SBIT(name, addr,
    bit) declares bit [bit] of the register at [addr]. *)
Lemma sbit_resolves (a : assignment) (name : string) (addr bit : Z) :
  supports_sbit (select_dialect a) = true ->
  select_dialect a <> HiTech -> select_dialect a <> Wickenhaeuser ->
  bit_addressable addr = true -> 0 <= bit <= 7 ->
  exists st ts,
    include (predefine a) = Some st /\
    invoke st "SBIT" [[Id name]; [Num addr NoSuffix]; [Num bit NoSuffix]]
      = Some ts /\
    read_bit (select_dialect a) ts = Some (name, (addr, bit)).
Proof.
  intros Hs Hh Hw Ha Hb.
  destruct (bit_address_value addr bit Ha Hb) as [Hv Hp].
  assert (Hva : value (ENum addr NoSuffix) = Some addr).
  { apply value_address. unfold bit_addressable in Ha.
    apply andb_prop in Ha. destruct Ha as [Ha _].
    apply andb_prop in Ha. destruct Ha as [H1 H2].
    apply Z.leb_le in H1, H2. lia. }
  assert (Hvb : value (ENum bit NoSuffix) = Some bit)
    by (apply value_address; lia).
  exists (installed a (select_dialect a)).
  rewrite include_installed, invoke_installed by reflexivity.
  destruct (select_dialect a), (newer a);
    try discriminate Hs; try (exfalso; apply Hh; reflexivity);
    try (exfalso; apply Hw; reflexivity);
    compute_expansion; eexists; (split; [reflexivity|]);
    (split; [reflexivity|]);
    unfold read_bit; cbn [bit_syntax]; compute_read; cbv beta iota.
  all: try (rewrite Hv, Hp; reflexivity).
  all: rewrite Hva, Hvb; reflexivity.
Qed.

(** C7. Under Hi-Tech and under Wickenhaeuser the parameter of SBIT that
    gives the position is called [bit], and [bit] is also the type keyword
    of the replacement list: the argument replaces the keyword.
    SBIT(P0_1, 0x80, 1) expands to "volatile 1 P0_1 @ (0x80+1)" and to
    "unsigned char 1 P0_1 @ (0x80+1)", which declare no bit, where the
    same invocation under SDCC declares bit 1 of the register at 0x80. *)
Theorem sbit_parameter_captures_bit_keyword :
  select_dialect (only "HI_TECH_C" 1) = HiTech /\
  include (predefine (only "HI_TECH_C" 1))
    = Some (installed (only "HI_TECH_C" 1) HiTech) /\
  invoke (installed (only "HI_TECH_C" 1) HiTech) "SBIT"
    [[Id "P0_1"]; [Num 0x80 NoSuffix]; [Num 1 NoSuffix]]
    = Some (lex "volatile 1 P0_1 @ (0x80+1)") /\
  read_bit HiTech (lex "volatile 1 P0_1 @ (0x80+1)") = None /\
  read_bit HiTech (lex "volatile bit P0_1 @ (0x80+1)")
    = Some ("P0_1", (0x80, 1)) /\
  select_dialect (only "__UC__" 1) = Wickenhaeuser /\
  include (predefine (only "__UC__" 1))
    = Some (installed (only "__UC__" 1) Wickenhaeuser) /\
  invoke (installed (only "__UC__" 1) Wickenhaeuser) "SBIT"
    [[Id "P0_1"]; [Num 0x80 NoSuffix]; [Num 1 NoSuffix]]
    = Some (lex "unsigned char 1 P0_1 @ (0x80+1)") /\
  read_bit Wickenhaeuser (lex "unsigned char 1 P0_1 @ (0x80+1)") = None /\
  read_bit Wickenhaeuser (lex "unsigned char bit P0_1 @ (0x80+1)")
    = Some ("P0_1", (0x80, 1)) /\
  invoke (installed (only "SDCC" 290) SDCC) "SBIT"
    [[Id "P0_1"]; [Num 0x80 NoSuffix]; [Num 1 NoSuffix]]
    = Some (lex "__sbit __at(0x80+1) P0_1") /\
  read_bit SDCC (lex "__sbit __at(0x80+1) P0_1") = Some ("P0_1", (0x80, 1)).
Proof.
  split; [reflexivity|]. split; [apply include_installed|].
  do 3 (split; [vm_compute; reflexivity|]).
  split; [reflexivity|]. split; [apply include_installed|].
  repeat split; vm_compute; reflexivity.
Qed.

(* ================================================================== *)
(** ** SFRBIT *)

(** C8, as amended. SFRBIT(name, addr, bit7, ..., bit0) expands under IAR
    to the volatile union that overlays the register with its eight
    single-bit fields, bit 0 first, at addr; under the default dialect to
    the bare name; under the seven other dialects to nothing. *)
Theorem sfrbit_overlay_only_under_iar
  (a : assignment) (name addr b7 b6 b5 b4 b3 b2 b1 b0 : list token) :
  exists st,
    include (predefine a) = Some st /\
    invoke st "SFRBIT" [name; addr; b7; b6; b5; b4; b3; b2; b1; b0]
      = Some (sfrbit_expansion (select_dialect a) name addr
                b7 b6 b5 b4 b3 b2 b1 b0).
Proof.
  exists (installed a (select_dialect a)).
  split; [apply include_installed|].
  rewrite invoke_installed by reflexivity.
  assert (E : forall ts : list token, ts ++ [] = ts) by apply app_nil_r.
  destruct (select_dialect a), (newer a); compute_expansion;
    cbn [sfrbit_expansion]; try reflexivity;
    try (rewrite E; reflexivity).
  all: f_equal; unfold overlay, bit_field; cbn [flat_map];
    repeat rewrite <- app_assoc; vm_compute; reflexivity.
Qed.

(** C8, as stated, fails: in the default dialect SFRBIT does not expand to
    nothing; SFRBIT(P0, 0x80, P0_7, ..., P0_0) leaves the token P0. *)
Lemma default_sfrbit_leaves_the_name :
  select_dialect unknown = Default /\
  include (predefine unknown) = Some (installed unknown Default) /\
  invoke (installed unknown Default) "SFRBIT"
    [[Id "P0"]; [Num 0x80 NoSuffix]; [Id "P0_7"]; [Id "P0_6"]; [Id "P0_5"];
     [Id "P0_4"]; [Id "P0_3"]; [Id "P0_2"]; [Id "P0_1"]; [Id "P0_0"]]
    = Some [Id "P0"] /\
  [Id "P0"] <> [] /\
  invoke (installed (only "__UC__" 1) Wickenhaeuser) "SFRBIT"
    [[Id "P0"]; [Num 0x80 NoSuffix]; [Id "P0_7"]; [Id "P0_6"]; [Id "P0_5"];
     [Id "P0_4"]; [Id "P0_3"]; [Id "P0_2"]; [Id "P0_1"]; [Id "P0_0"]]
    = Some [].
Proof.
  split; [reflexivity|]. split; [apply include_installed|].
  split; [vm_compute; reflexivity|]. split; [discriminate|].
  vm_compute; reflexivity.
Qed.

(* ================================================================== *)
(** ** VECT *)

(** C9. Under every assignment, VECT(num, addr) expands to one of its two
    arguments: to num under SDCC, Keil, Raisonance, Tasking, Crossware and
    the default dialect, to addr under IAR, Hi-Tech and Wickenhaeuser; the
    other argument does not occur in the expansion, which is the same
    whatever it is. *)
Theorem vect_is_one_argument (a : assignment) (num addr : list token) :
  exists st,
    include (predefine a) = Some st /\
    invoke st "VECT" [num; addr]
      = Some (if by_number (select_dialect a) then num else addr) /\
    (forall other,
       invoke st "VECT"
         (if by_number (select_dialect a) then [num; other] else [other; addr])
       = invoke st "VECT" [num; addr]).
Proof.
  exists (installed a (select_dialect a)).
  split; [apply include_installed|].
  assert (E : forall ts : list token, ts ++ [] = ts) by apply app_nil_r.
  split; [|intros other]; rewrite !invoke_installed by reflexivity;
    destruct (select_dialect a), (newer a); cbn [by_number];
    compute_expansion; compute_expansions; rewrite ?E; reflexivity.
Qed.

(* ================================================================== *)
(** ** The include guard *)

Lemma include_times_installed (a : assignment) (d : dialect) (k : nat) :
  include_times k (installed a d) = Some (installed a d).
Proof.
  induction k as [|k IH]; [reflexivity|].
  cbn [include_times]. rewrite include_again. exact IH.
Qed.

Lemma predefs_names (a : assignment) (l : list string) (n : string) :
  In n (map fst (predefs a l)) -> In n l.
Proof.
  induction l as [|s l IH]; [intros []|].
  unfold predefs in *. cbn [flat_map]. rewrite map_app, in_app_iff.
  intros [H|H].
  - destruct (a s); [|destruct H]. cbn in H. destruct H as [<-|[]].
    left. reflexivity.
  - right. exact (IH H).
Qed.

(** C10. Including the header again changes nothing: after any number of
    further inclusions the state of the preprocessor, its macro definitions
    and its diagnostics, is the state after the first; the second inclusion
    finds the guard defined; and in the log of the unit every entry point
    is the object of at most one definition. *)
Theorem include_guard_idempotent (a : assignment) (k : nat) :
  exists st,
    include (predefine a) = Some st /\
    include_times (S k) (predefine a) = Some st /\
    include st = Some st /\
    defined "COMPILER_H" st = true /\
    (forall n, In n entry_points ->
       (count_occ string_dec (map fst (defs st)) n <= 1)%nat).
Proof.
  exists (installed a (select_dialect a)).
  split; [apply include_installed|]. split.
  { cbn [include_times]. rewrite include_installed.
    apply include_times_installed. }
  split; [apply include_again|]. split; [apply guard_installed|].
  intros n Hn. unfold installed. cbn [defs].
  rewrite map_app, count_occ_app.
  assert (H0 : count_occ string_dec (map fst (defs (guarded a))) n = 0%nat).
  { apply count_occ_not_In. unfold guarded, add_def, predefine.
    cbn [defs map fst]. intros [H|H].
    - cbn in Hn. subst n.
      repeat (destruct Hn as [Hn|Hn]; [discriminate Hn|]). destruct Hn.
    - apply predefs_names in H. cbn in Hn, H.
      repeat (destruct Hn as [<-|Hn];
              [repeat (destruct H as [H|H]; [discriminate H|]); destruct H|]).
      destruct Hn. }
  rewrite H0, Nat.add_0_r. cbn in Hn.
  destruct (select_dialect a), (newer a);
    repeat (destruct Hn as [<-|Hn]; [vm_compute; repeat constructor|]);
    destruct Hn.
Qed.

(** Without the guard, a second pass over the chain would define every
    macro again: the guard is what makes the inclusion idempotent. *)
Example chain_twice_defines_twice :
  match exec chain (installed (only "SDCC" 290) SDCC) with
  | Some st => count_occ string_dec (map fst (defs st)) "SFR" = 2%nat
  | None => False
  end.
Proof. vm_compute. reflexivity. Qed.

(* ================================================================== *)
(** ** The header in a unit that already has definitions *)

Import Registers Frame.

Lemma directive_nested_ind (P : directive -> Prop) :
  (forall n m, P (Define n m)) ->
  (forall w, P (Warning w)) ->
  (forall c thn els, Forall P thn -> Forall P els -> P (If c thn els)) ->
  forall d, P d.
Proof.
  intros H1 H2 H3. fix IH 1. intros [n m|w|c thn els].
  - apply H1.
  - apply H2.
  - apply H3; [induction thn|induction els]; constructor; auto.
Qed.

Lemma extends_refl (names : list string) (st : state) : extends names st st.
Proof.
  exists [], []. cbn [app map]. rewrite app_nil_r.
  repeat split. intros k [].
Qed.

Lemma extends_trans (n1 n2 : list string) (st1 st2 st3 : state) :
  extends n1 st1 st2 -> extends n2 st2 st3 -> extends (n1 ++ n2) st1 st3.
Proof.
  intros (new1 & w1 & Hd1 & Hw1 & Hn1) (new2 & w2 & Hd2 & Hw2 & Hn2).
  exists (new2 ++ new1), (w1 ++ w2). split; [|split].
  - rewrite Hd2, Hd1, app_assoc. reflexivity.
  - rewrite Hw2, Hw1, app_assoc. reflexivity.
  - intros k. rewrite map_app, !in_app_iff. intros [H|H]; auto.
Qed.

Lemma extends_weaken (n1 n2 : list string) (st st' : state) :
  (forall k, In k n1 -> In k n2) -> extends n1 st st' -> extends n2 st st'.
Proof.
  intros H (new & w & Hd & Hw & Hn). exists new, w. repeat split; auto.
Qed.

Lemma run_extends (ds : list directive) :
  Forall (fun d => forall st st', exec d st = Some st' ->
                                  extends (defined_names d) st st') ds ->
  forall st st', run ds st = Some st' ->
                 extends (flat_map defined_names ds) st st'.
Proof.
  induction 1 as [|d ds Hd _ IH]; intros st st' H.
  - injection H as <-. apply extends_refl.
  - cbn [run] in H. destruct (exec d st) as [st1|] eqn:E; [|discriminate H].
    cbn [flat_map]. exact (extends_trans _ _ _ _ _ (Hd _ _ E) (IH _ _ H)).
Qed.

(** A directive only adds to the log, and only definitions of the names it
    writes. *)
Lemma exec_extends (d : directive) (st st' : state) :
  exec d st = Some st' -> extends (defined_names d) st st'.
Proof.
  revert st st'. induction d as [n m|w|c thn els Ht He]
    using directive_nested_ind; intros st st' H.
  - injection H as <-. exists [(n, m)], []. cbn. rewrite app_nil_r.
    repeat split. intros k [<-|[]]. left. reflexivity.
  - injection H as <-. exists [], [w]. cbn. repeat split. intros k [].
  - rewrite exec_If in H. cbn [defined_names].
    destruct (eval_cond st c) as [[|]|]; [| |discriminate H].
    + apply (extends_weaken (flat_map defined_names thn));
        [intros k Hk; apply in_or_app; auto|].
      exact (run_extends thn Ht st st' H).
    + apply (extends_weaken (flat_map defined_names els));
        [intros k Hk; apply in_or_app; auto|].
      exact (run_extends els He st st' H).
Qed.

Lemma assoc_absent {A : Type} (k : string) (l : list (string * A)) :
  ~ In k (map fst l) -> assoc k l = None.
Proof.
  induction l as [|[k' v] l IH]; [reflexivity|].
  cbn [map fst In assoc]. intros H.
  destruct (String.eqb k k') eqn:E.
  - apply String.eqb_eq in E. subst k'. exfalso. apply H. left. reflexivity.
  - apply IH. intros Hk. apply H. right. exact Hk.
Qed.

Lemma extends_lookup (names : list string) (st st' : state) (n : string) :
  extends names st st' -> ~ In n names -> lookup n st' = lookup n st.
Proof.
  intros (new & w & Hd & _ & Hn) H. unfold lookup. rewrite Hd, assoc_app.
  rewrite assoc_absent; [reflexivity|]. intros Hk. exact (H (Hn n Hk)).
Qed.

Lemma extends_defined (names : list string) (st st' : state) (n : string) :
  extends names st st' -> defined n st = true -> defined n st' = true.
Proof.
  intros (new & w & Hd & _ & _). unfold defined, lookup.
  rewrite Hd, assoc_app. destruct (assoc n new); [reflexivity|auto].
Qed.

(** X1. Whatever the unit has defined before, an inclusion that succeeds
    only adds to the log of definitions and to the diagnostics; the names
    it can define are COMPILER_H, __SFRBIT_IN_USE__ and the twelve entry
    points, and the definition of every other name is left as it was. *)
Theorem include_defines_only_its_names (st st' : state) :
  include st = Some st' ->
  extends header_names st st' /\
  header_names
    = "COMPILER_H" :: "__SFRBIT_IN_USE__" :: assembly ++ declarators /\
  (forall n, ~ In n header_names -> lookup n st' = lookup n st).
Proof.
  intros H.
  assert (Hx : extends header_names st st').
  { apply (extends_weaken (defined_names compiler_h));
      [intros k Hk; apply nodup_In; exact Hk|].
    apply exec_extends. exact H. }
  split; [exact Hx|]. split; [vm_compute; reflexivity|].
  intros n Hnot. exact (extends_lookup header_names st st' n Hx Hnot).
Qed.

Lemma include_defines_only_its_names_witness :
  include (predefine unknown) = Some (installed unknown Default) /\
  extends header_names (predefine unknown) (installed unknown Default) /\
  header_names
    = "COMPILER_H" :: "__SFRBIT_IN_USE__" :: assembly ++ declarators /\
  (forall n, ~ In n header_names ->
     lookup n (installed unknown Default) = lookup n (predefine unknown)).
Proof.
  split; [vm_compute; reflexivity|].
  apply (include_defines_only_its_names (predefine unknown)
           (installed unknown Default)).
  vm_compute; reflexivity.
Defined.

(** X2. In any unit, whatever it has defined before, an inclusion that
    succeeds leaves the guard defined, and including the header again then
    changes nothing. *)
Theorem include_idempotent_in_any_unit (st st' : state) :
  include st = Some st' ->
  defined "COMPILER_H" st' = true /\ include st' = Some st'.
Proof.
  intros H.
  assert (Hg : defined "COMPILER_H" st' = true).
  { unfold include, compiler_h in H. rewrite exec_If in H.
    cbn [eval_cond] in H.
    destruct (defined "COMPILER_H" st) eqn:E; cbn [negb run] in H.
    - injection H as <-. exact E.
    - cbn [exec] in H.
      destruct (exec chain (add_def "COMPILER_H" guard st)) as [st1|] eqn:Ec;
        [|discriminate H].
      injection H as <-.
      apply (extends_defined _ _ _ _ (exec_extends _ _ _ Ec)).
      reflexivity. }
  split; [exact Hg|].
  unfold include, compiler_h. rewrite exec_If. cbn [eval_cond].
  rewrite Hg. reflexivity.
Qed.

Lemma include_idempotent_in_any_unit_witness :
  include (predefine (only "__UC__" 1))
    = Some (installed (only "__UC__" 1) Wickenhaeuser) /\
  defined "COMPILER_H" (installed (only "__UC__" 1) Wickenhaeuser) = true /\
  include (installed (only "__UC__" 1) Wickenhaeuser)
    = Some (installed (only "__UC__" 1) Wickenhaeuser).
Proof.
  split; [vm_compute; reflexivity|].
  apply (include_idempotent_in_any_unit (predefine (only "__UC__" 1))).
  vm_compute; reflexivity.
Defined.

Lemma lookup_add_other (n k : string) (m : macro) (st : state) :
  String.eqb n k = false -> lookup n (add_def k m st) = lookup n st.
Proof. intros H. unfold lookup, add_def. cbn [defs assoc]. rewrite H. reflexivity. Qed.

Lemma defined_add_other (n k : string) (m : macro) (st : state) :
  String.eqb n k = false -> defined n (add_def k m st) = defined n st.
Proof. intros H. unfold defined. rewrite lookup_add_other by exact H. reflexivity. Qed.

(** X3. The chain is read lazily. In a unit where __IAR_SYSTEMS_ICC__ is
    defined with an empty replacement list, "#elif __IAR_SYSTEMS_ICC__" has
    no expression to evaluate: the inclusion fails exactly when the chain
    gets that far, that is when none of SDCC, __SDCC, __CX51__ and __RC51__
    is defined; when one of them is, its branch is compiled and the
    ill-formed line is never looked at. *)
Theorem chain_reads_conditions_lazily (st : state) :
  defined "COMPILER_H" st = false ->
  lookup "__IAR_SYSTEMS_ICC__" st = Some empty_definition ->
  (include st = None <->
   defined "SDCC" st = false /\ defined "__SDCC" st = false /\
   defined "__CX51__" st = false /\ defined "__RC51__" st = false).
Proof.
  intros Hg Hi. unfold include, compiler_h. rewrite exec_If.
  cbn [eval_cond]. rewrite Hg. cbn [negb run exec].
  set (st0 := add_def "COMPILER_H" guard st).
  unfold chain. rewrite exec_If. cbn [eval_cond].
  unfold st0 at 1 2. rewrite !defined_add_other by reflexivity.
  destruct (defined "SDCC" st) eqn:E1;
    [split; [intros H; discriminate H|intros [H _]; discriminate H]|].
  destruct (defined "__SDCC" st) eqn:E2;
    [split; [intros H; discriminate H|intros (_ & H & _); discriminate H]|].
  cbn [orb]. rewrite run_single, exec_If. cbn [eval_cond].
  unfold st0 at 1. rewrite defined_add_other by reflexivity.
  destruct (defined "__CX51__" st) eqn:E3;
    [split; [intros H; discriminate H
            |intros (_ & _ & H & _); discriminate H]|].
  rewrite run_single, exec_If. cbn [eval_cond].
  unfold st0 at 1. rewrite defined_add_other by reflexivity.
  destruct (defined "__RC51__" st) eqn:E4;
    [split; [intros H; discriminate H
            |intros (_ & _ & _ & H); discriminate H]|].
  rewrite run_single, exec_If. cbn [eval_cond]. unfold value_of.
  unfold st0 at 1. rewrite lookup_add_other by reflexivity. rewrite Hi.
  cbn. split; auto.
Qed.

Lemma chain_reads_conditions_lazily_witness :
  defined "COMPILER_H"
    {| defs := [("__IAR_SYSTEMS_ICC__", empty_definition)]; diags := [] |}
    = false /\
  lookup "__IAR_SYSTEMS_ICC__"
    {| defs := [("__IAR_SYSTEMS_ICC__", empty_definition)]; diags := [] |}
    = Some empty_definition /\
  (include
     {| defs := [("__IAR_SYSTEMS_ICC__", empty_definition)]; diags := [] |}
     = None <->
   defined "SDCC"
     {| defs := [("__IAR_SYSTEMS_ICC__", empty_definition)]; diags := [] |}
     = false /\
   defined "__SDCC"
     {| defs := [("__IAR_SYSTEMS_ICC__", empty_definition)]; diags := [] |}
     = false /\
   defined "__CX51__"
     {| defs := [("__IAR_SYSTEMS_ICC__", empty_definition)]; diags := [] |}
     = false /\
   defined "__RC51__"
     {| defs := [("__IAR_SYSTEMS_ICC__", empty_definition)]; diags := [] |}
     = false).
Proof.
  split; [reflexivity|]. split; [reflexivity|].
  apply (chain_reads_conditions_lazily
           {| defs := [("__IAR_SYSTEMS_ICC__", empty_definition)];
              diags := [] |}); reflexivity.
Defined.

(* ================================================================== *)
(** ** More on the selection *)

(** X4. A compiler that predefines one identity symbol and no other gets
    the dialect of that symbol, whatever the value of the symbol; for IAR
    the value must not be 0. *)
Theorem own_symbol_selects_own_dialect (d : dialect) (s : string) (v : Z) :
  In s (identity d) ->
  (d = IAR -> v <> 0) ->
  select_dialect (only s v) = d /\
  include (predefine (only s v)) = Some (installed (only s v) d).
Proof.
  intros Hs Hv.
  assert (H : select_dialect (only s v) = d).
  { destruct d; cbn in Hs;
      repeat (destruct Hs as [<-|Hs]; [try reflexivity|]); try destruct Hs.
    unfold select_dialect, order, matches. cbn [find condition_of holds].
    unfold only. cbn.
    destruct (Z.eqb_spec v 0) as [E|E]; [destruct (Hv eq_refl E)|].
    reflexivity. }
  split; [exact H|]. rewrite include_installed, H. reflexivity.
Qed.

Lemma own_symbol_selects_own_dialect_witness :
  In "__IAR_SYSTEMS_ICC__" (identity IAR) /\
  (IAR = IAR -> 8 <> 0) /\
  select_dialect (only "__IAR_SYSTEMS_ICC__" 8) = IAR /\
  include (predefine (only "__IAR_SYSTEMS_ICC__" 8))
    = Some (installed (only "__IAR_SYSTEMS_ICC__" 8) IAR).
Proof.
  split; [cbn; tauto|]. split; [intros _; lia|].
  apply (own_symbol_selects_own_dialect IAR "__IAR_SYSTEMS_ICC__" 8);
    [cbn; tauto|intros _; lia].
Defined.

(** X5. The selection looks at which symbols are defined and, of their
    values, only at whether __IAR_SYSTEMS_ICC__ is 0: two assignments that
    define the same symbols and agree on that select the same dialect. In
    particular a __IAR_SYSTEMS_ICC__ defined as 0 selects as if it were not
    defined. *)
Theorem selection_ignores_values (a a' : assignment) :
  (forall s, In s vendor_symbols -> is_some (a s) = is_some (a' s)) ->
  holds a (NonZero "__IAR_SYSTEMS_ICC__")
    = holds a' (NonZero "__IAR_SYSTEMS_ICC__") ->
  select_dialect a = select_dialect a'.
Proof.
  intros Hd Hi. unfold select_dialect, order, matches.
  cbn [find condition_of]. rewrite Hi.
  cbn [holds]. rewrite !(Hd _) by (cbn; tauto). reflexivity.
Qed.

Lemma selection_ignores_values_witness :
  (forall s, In s vendor_symbols ->
     is_some (only "HI_TECH_C" 0 s) = is_some (only "HI_TECH_C" 7 s)) /\
  holds (only "HI_TECH_C" 0) (NonZero "__IAR_SYSTEMS_ICC__")
    = holds (only "HI_TECH_C" 7) (NonZero "__IAR_SYSTEMS_ICC__") /\
  select_dialect (only "HI_TECH_C" 0) = select_dialect (only "HI_TECH_C" 7).
Proof.
  assert (H : forall s, In s vendor_symbols ->
    is_some (only "HI_TECH_C" 0 s) = is_some (only "HI_TECH_C" 7 s)).
  { intros s _. unfold only. destruct (String.eqb s "HI_TECH_C"); reflexivity. }
  split; [exact H|]. split; [reflexivity|].
  apply (selection_ignores_values (only "HI_TECH_C" 0) (only "HI_TECH_C" 7));
    [exact H|reflexivity].
Defined.

(** X6. The warning is the only diagnostic of the header, and it is raised
    exactly when no vendor branch matches. *)
Theorem warning_iff_no_vendor_matches (a : assignment) :
  exists st,
    include (predefine a) = Some st /\
    (diags st = [] \/ diags st = ["unrecognized compiler"]) /\
    (diags st = ["unrecognized compiler"] <->
     forall d, d <> Default -> matches a d = false).
Proof.
  exists (installed a (select_dialect a)).
  split; [apply include_installed|]. cbn [installed diags].
  pose proof (find_selected a) as Hf.
  destruct (find_first _ _ _ Hf) as [Hm Hb].
  split; [destruct (select_dialect a); cbn; auto|].
  split.
  - intros Hw d Hd.
    assert (E : select_dialect a = Default)
      by (destruct (select_dialect a); try discriminate Hw; reflexivity).
    rewrite E in Hb. apply Hb. destruct d; cbn; tauto.
  - intros Hall.
    destruct (select_dialect a) eqn:E; try reflexivity;
      match goal with
      | |- diagnostics ?d = _ =>
          assert (X : matches a d = false) by (apply Hall; discriminate);
          rewrite X in Hm; discriminate Hm
      end.
Qed.

(** X7. Under Tasking the threshold of SFR16 is strict: the symbol _CC51 is
    defined, and SFR16(name, addr) expands to the _sfrword declaration when
    its value is above 71 and to nothing when it is 71 or below. *)
Theorem tasking_sfr16_threshold (a : assignment) (name addr : list token) :
  select_dialect a = Tasking ->
  exists v st,
    a "_CC51" = Some v /\
    include (predefine a) = Some st /\
    invoke st "SFR16" [name; addr]
      = Some (if 71 <? v
              then lex "_sfrword _little" ++ name ++ lex "_at(" ++ addr
                   ++ lex ")"
              else []).
Proof.
  intros Hd.
  pose proof (find_selected a) as Hf.
  destruct (find_first _ _ _ Hf) as [Hm _]. rewrite Hd in Hm.
  unfold matches in Hm. cbn [condition_of holds] in Hm.
  destruct (a "_CC51") as [v|] eqn:Ev; [|discriminate Hm].
  exists v, (installed a Tasking).
  split; [reflexivity|]. rewrite include_installed, Hd.
  split; [reflexivity|].
  rewrite invoke_installed by reflexivity.
  unfold newer. cbn [holds]. rewrite Ev.
  destruct (71 <? v); compute_expansion; vm_compute; reflexivity.
Qed.

Lemma tasking_sfr16_threshold_witness :
  select_dialect (only "_CC51" 71) = Tasking /\
  exists v st,
    only "_CC51" 71 "_CC51" = Some v /\
    include (predefine (only "_CC51" 71)) = Some st /\
    invoke st "SFR16" [[Id "TMR2"]; [Num 0xCC NoSuffix]]
      = Some (if 71 <? v
              then lex "_sfrword _little" ++ [Id "TMR2"] ++ lex "_at("
                   ++ [Num 0xCC NoSuffix] ++ lex ")"
              else []).
Proof.
  split; [reflexivity|].
  apply (tasking_sfr16_threshold (only "_CC51" 71)
           [Id "TMR2"] [Num 0xCC NoSuffix]).
  reflexivity.
Defined.

(* ================================================================== *)
(** ** SFR and SFRX: one byte at an address *)

(** An unsuffixed constant below [2^32] is worth itself, whatever type it
    takes. *)
Lemma value_constant (n : Z) :
  0 <= n < 2 ^ 32 -> value (ENum n NoSuffix) = Some n.
Proof.
  intros H. unfold value. cbn [eval]. f_equal. unfold constant_type.
  change (2 ^ 32) with 4294967296 in H.
  destruct (Z.ltb_spec n (2 ^ 15)) as [H1|H1];
    [|destruct (Z.ltb_spec n (2 ^ 16)) as [H2|H2];
      [|destruct (Z.ltb_spec n (2 ^ 31)) as [H3|H3]]];
    unfold wrap; cbn [unsigned bits];
    change (2 ^ 15) with 32768 in *; change (2 ^ 16) with 65536 in *;
    change (2 ^ 31) with 2147483648 in *;
    change (2 ^ 32) with 4294967296 in *;
    change (2 ^ (16 - 1)) with 32768; change (2 ^ (32 - 1)) with 2147483648;
    rewrite Z.mod_small; lia.
Qed.

(** X8. Under each of the eight vendors, SFR(name, addr) is a declaration
    of the vendor's 8-bit SFR syntax that gives [name] to the address
    [addr], for every address of a byte. *)
Theorem sfr_binds_name_to_address (a : assignment) (name : string) (addr : Z) :
  select_dialect a <> Default ->
  0 <= addr <= 0xFF ->
  exists st ts,
    include (predefine a) = Some st /\
    invoke st "SFR" [[Id name]; [Num addr NoSuffix]] = Some ts /\
    read_at (byte_syntax (select_dialect a)) ts = Some (name, addr).
Proof.
  intros Hd Ha.
  assert (Hv : value (ENum addr NoSuffix) = Some addr)
    by (apply value_constant; lia).
  exists (installed a (select_dialect a)).
  rewrite include_installed, invoke_installed by reflexivity.
  destruct (select_dialect a), (newer a);
    try (exfalso; apply Hd; reflexivity);
    compute_expansion; eexists; (split; [reflexivity|]);
    (split; [reflexivity|]);
    unfold read_at; cbn [byte_syntax]; compute_read; cbv beta iota;
    rewrite Hv; reflexivity.
Qed.

Lemma sfr_binds_name_to_address_witness :
  select_dialect (only "__CX51__" 1) <> Default /\
  0 <= 0x80 <= 0xFF /\
  exists st ts,
    include (predefine (only "__CX51__" 1)) = Some st /\
    invoke st "SFR" [[Id "P0"]; [Num 0x80 NoSuffix]] = Some ts /\
    read_at (byte_syntax (select_dialect (only "__CX51__" 1))) ts
      = Some ("P0", 0x80).
Proof.
  split; [vm_compute; discriminate|]. split; [lia|].
  apply (sfr_binds_name_to_address (only "__CX51__" 1) "P0" 0x80);
    [vm_compute; discriminate|lia].
Defined.

(** X9. Under each of the eight vendors, SFRX(name, addr) is a declaration
    of the vendor's external-data syntax that gives [name] to the address
    [addr], for every 16-bit address, those from 0x8000 on included. *)
Theorem sfrx_binds_name_to_address (a : assignment) (name : string) (addr : Z) :
  select_dialect a <> Default ->
  0 <= addr <= 0xFFFF ->
  exists st ts,
    include (predefine a) = Some st /\
    invoke st "SFRX" [[Id name]; [Num addr NoSuffix]] = Some ts /\
    read_at (xdata_syntax (select_dialect a)) ts = Some (name, addr).
Proof.
  intros Hd Ha.
  assert (Hv : value (ENum addr NoSuffix) = Some addr)
    by (apply value_constant; lia).
  exists (installed a (select_dialect a)).
  rewrite include_installed, invoke_installed by reflexivity.
  destruct (select_dialect a), (newer a);
    try (exfalso; apply Hd; reflexivity);
    compute_expansion; eexists; (split; [reflexivity|]);
    (split; [reflexivity|]);
    unfold read_at; cbn [xdata_syntax]; compute_read; cbv beta iota;
    rewrite Hv; reflexivity.
Qed.

Lemma sfrx_binds_name_to_address_witness :
  select_dialect (only "__RC51__" 1) <> Default /\
  0 <= 0xE600 <= 0xFFFF /\
  exists st ts,
    include (predefine (only "__RC51__" 1)) = Some st /\
    invoke st "SFRX" [[Id "CPUCS"]; [Num 0xE600 NoSuffix]] = Some ts /\
    read_at (xdata_syntax (select_dialect (only "__RC51__" 1))) ts
      = Some ("CPUCS", 0xE600).
Proof.
  split; [vm_compute; discriminate|]. split; [lia|].
  apply (sfrx_binds_name_to_address (only "__RC51__" 1) "CPUCS" 0xE600);
    [vm_compute; discriminate|lia].
Defined.

(* ================================================================== *)
(** ** SFR16E and SFR32E: addresses packed in a constant *)

Lemma land_shiftl_low (hi lo k : Z) :
  0 <= k -> 0 <= lo < 2 ^ k -> Z.land (Z.shiftl hi k) lo = 0.
Proof.
  intros Hk Hlo. apply Z.bits_inj'. intros n Hn.
  rewrite Z.land_spec, Z.bits_0.
  destruct (Z.lt_ge_cases n k) as [H|H].
  - rewrite Z.shiftl_spec_low by lia. reflexivity.
  - destruct (Z.eq_dec lo 0) as [->|Hz].
    + rewrite Z.bits_0. apply andb_false_r.
    + rewrite (Z.bits_above_log2 lo n); [apply andb_false_r|lia|].
      assert (Z.log2 lo < k) by (apply Z.log2_lt_pow2; lia). lia.
Qed.

Lemma lor_shiftl_low (hi lo k : Z) :
  0 <= k -> 0 <= lo < 2 ^ k -> Z.lor (Z.shiftl hi k) lo = hi * 2 ^ k + lo.
Proof.
  intros Hk Hlo. pose proof (land_shiftl_low hi lo k Hk Hlo) as H.
  rewrite <- Z.lxor_lor by exact H.
  rewrite <- Z.add_nocarry_lxor by exact H.
  rewrite Z.shiftl_mul_pow2 by lia. reflexivity.
Qed.

Lemma byte_div_mod (v k : Z) :
  0 <= k -> byte v k = (v / 2 ^ (8 * k)) mod 256.
Proof.
  intros Hk. unfold byte. rewrite Z.shiftr_div_pow2 by lia.
  change 0xFF with (Z.ones 8). rewrite Z.land_ones by lia. reflexivity.
Qed.

Lemma pack16_sum (lo hi : Z) :
  0 <= lo <= 0xFF -> pack16 lo hi = hi * 256 + lo.
Proof.
  intros H. unfold pack16. rewrite lor_shiftl_low; [reflexivity|lia|].
  change (2 ^ 8) with 256. lia.
Qed.

Lemma pack32_sum (b0 b1 b2 b3 : Z) :
  0 <= b0 <= 0xFF -> 0 <= b1 <= 0xFF -> 0 <= b2 <= 0xFF ->
  pack32 b0 b1 b2 b3 = b3 * 16777216 + b2 * 65536 + b1 * 256 + b0.
Proof.
  intros H0 H1 H2. unfold pack32.
  rewrite (lor_shiftl_low b3 (Z.shiftl b2 16) 24);
    [|lia|rewrite Z.shiftl_mul_pow2 by lia;
          change (2 ^ 16) with 65536; change (2 ^ 24) with 16777216; lia].
  rewrite (Z.shiftl_mul_pow2 b2 16) by lia.
  replace (b3 * 2 ^ 24 + b2 * 2 ^ 16) with (Z.shiftl (b3 * 256 + b2) 16)
    by (rewrite Z.shiftl_mul_pow2 by lia;
        change (2 ^ 16) with 65536; change (2 ^ 24) with 16777216; lia).
  rewrite (lor_shiftl_low (b3 * 256 + b2) (Z.shiftl b1 8) 16);
    [|lia|rewrite Z.shiftl_mul_pow2 by lia;
          change (2 ^ 8) with 256; change (2 ^ 16) with 65536; lia].
  rewrite (Z.shiftl_mul_pow2 b1 8) by lia.
  replace ((b3 * 256 + b2) * 2 ^ 16 + b1 * 2 ^ 8)
    with (Z.shiftl (b3 * 65536 + b2 * 256 + b1) 8)
    by (rewrite Z.shiftl_mul_pow2 by lia;
        change (2 ^ 8) with 256; change (2 ^ 16) with 65536; lia).
  rewrite lor_shiftl_low; [|lia|change (2 ^ 8) with 256; lia].
  change (2 ^ 8) with 256. lia.
Qed.

(** The value of SDCC's packed operand of SFR16 on the whole range of a
    byte: at 0xFF the sum [addr + 1] is shifted out of the 16 bits. *)
Lemma packed16_wraps (n : Z) :
  0 <= n <= 0xFF ->
  exists v, value (packed16 n) = Some v /\
            byte v 0 = n /\ byte v 1 = (n + 1) mod 256.
Proof.
  intros H.
  pose (P := fun n =>
    match value (packed16 n) with
    | Some v => ((byte v 0 =? n) && (byte v 1 =? (n + 1) mod 256))%bool
    | None => false
    end).
  assert (HP : P n = true).
  { apply (range_forallb P 0 256); [vm_compute; reflexivity|lia]. }
  unfold P in HP.
  destruct (value (packed16 n)) as [v|]; [|discriminate HP].
  apply andb_prop in HP. destruct HP as [H0 H1].
  apply Z.eqb_eq in H0, H1. exists v. auto.
Qed.

Section SDCCRegisters.

Variable a : assignment.
Variable name : string.

(** The four multi-byte declarators in the branch of SDCC, read in SDCC's
    syntax. *)
Lemma sdcc_sfr16_reading (addr : Z) :
  0 <= addr <= 0xFF ->
  exists ts,
    invoke (installed a SDCC) "SFR16" [[Id name]; [Num addr NoSuffix]]
      = Some ts /\
    read_word SDCC false ts = Some (name, (addr, (addr + 1) mod 256)).
Proof.
  intros Ha. destruct (packed16_wraps addr Ha) as (v & Hv & H0 & H1).
  rewrite invoke_installed by reflexivity.
  destruct (newer a); compute_expansion; eexists; (split; [reflexivity|]);
    unfold read_word; cbn [word_syntax]; compute_read; cbv beta iota;
    fold (packed16 addr); rewrite Hv; cbn [word_bytes]; rewrite H0, H1;
    reflexivity.
Qed.

Lemma sdcc_sfr32_reading (addr : Z) :
  0 <= addr <= 0xFC ->
  exists ts,
    invoke (installed a SDCC) "SFR32" [[Id name]; [Num addr NoSuffix]]
      = Some ts /\
    read_dword SDCC ts = Some (name, [addr; addr + 1; addr + 2; addr + 3]).
Proof.
  intros Ha. destruct (packed32_value addr Ha) as (v & Hv & Hb).
  rewrite invoke_installed by reflexivity.
  destruct (newer a); compute_expansion; eexists; (split; [reflexivity|]);
    unfold read_dword; cbn [dword_syntax]; compute_read; cbv beta iota;
    fold (packed32 addr); rewrite Hv, Hb; reflexivity.
Qed.

Lemma sdcc_sfr16e_reading (lo hi : Z) :
  0 <= lo <= 0xFF -> 0 <= hi <= 0xFF ->
  exists ts,
    invoke (installed a SDCC) "SFR16E"
      [[Id name]; [Num (pack16 lo hi) NoSuffix]] = Some ts /\
    read_word SDCC false ts = Some (name, (lo, hi)).
Proof.
  intros Hlo Hhi. rewrite pack16_sum by exact Hlo.
  remember (hi * 256 + lo) as v eqn:Ev.
  assert (Hv : value (ENum v NoSuffix) = Some v)
    by (apply value_constant; lia).
  rewrite invoke_installed by reflexivity.
  destruct (newer a); compute_expansion; eexists; (split; [reflexivity|]);
    unfold read_word; cbn [word_syntax]; compute_read; cbv beta iota;
    rewrite Hv; cbn [word_bytes]; rewrite !byte_div_mod by lia;
    change (2 ^ (8 * 0)) with 1; change (2 ^ (8 * 1)) with 256;
    do 3 f_equal; Z.div_mod_to_equations; lia.
Qed.

Lemma sdcc_sfr32e_reading (b0 b1 b2 b3 : Z) :
  0 <= b0 <= 0xFF -> 0 <= b1 <= 0xFF -> 0 <= b2 <= 0xFF -> 0 <= b3 <= 0xFF ->
  exists ts,
    invoke (installed a SDCC) "SFR32E"
      [[Id name]; [Num (pack32 b0 b1 b2 b3) NoSuffix]] = Some ts /\
    read_dword SDCC ts = Some (name, [b0; b1; b2; b3]).
Proof.
  intros H0 H1 H2 H3. rewrite pack32_sum by assumption.
  remember (b3 * 16777216 + b2 * 65536 + b1 * 256 + b0) as v eqn:Ev.
  assert (Hv : value (ENum v NoSuffix) = Some v)
    by (apply value_constant; change (2 ^ 32) with 4294967296; lia).
  rewrite invoke_installed by reflexivity.
  destruct (newer a); compute_expansion; eexists; (split; [reflexivity|]);
    unfold read_dword; cbn [dword_syntax]; compute_read; cbv beta iota;
    rewrite Hv; cbn [dword_bytes]; rewrite !byte_div_mod by lia;
    change (2 ^ (8 * 0)) with 1; change (2 ^ (8 * 1)) with 256;
    change (2 ^ (8 * 2)) with 65536; change (2 ^ (8 * 3)) with 16777216;
    repeat f_equal; Z.div_mod_to_equations; lia.
Qed.

End SDCCRegisters.

(** X10. Under SDCC, SFR16E takes two byte addresses that need not be
    adjacent, packed in one constant: SFR16E(name, (hi << 8) | lo) declares
    the register whose low byte is at [lo] and whose high byte is at [hi],
    as in the header's example 0x8C8A, lsb at 0x8A and msb at 0x8C. *)
Theorem sdcc_sfr16e_unpacks (a : assignment) (name : string) (lo hi : Z) :
  select_dialect a = SDCC ->
  0 <= lo <= 0xFF -> 0 <= hi <= 0xFF ->
  exists st ts,
    include (predefine a) = Some st /\
    invoke st "SFR16E" [[Id name]; [Num (pack16 lo hi) NoSuffix]] = Some ts /\
    read_word SDCC false ts = Some (name, (lo, hi)).
Proof.
  intros Hd Hlo Hhi.
  destruct (sdcc_sfr16e_reading a name lo hi Hlo Hhi) as (ts & H1 & H2).
  exists (installed a SDCC), ts.
  rewrite include_installed, Hd. auto.
Qed.

Lemma sdcc_sfr16e_unpacks_witness :
  select_dialect (only "SDCC" 290) = SDCC /\
  0 <= 0x8A <= 0xFF /\ 0 <= 0x8C <= 0xFF /\
  exists st ts,
    include (predefine (only "SDCC" 290)) = Some st /\
    invoke st "SFR16E" [[Id "TMR0"]; [Num (pack16 0x8A 0x8C) NoSuffix]]
      = Some ts /\
    read_word SDCC false ts = Some ("TMR0", (0x8A, 0x8C)).
Proof.
  split; [reflexivity|]. split; [lia|]. split; [lia|].
  apply (sdcc_sfr16e_unpacks (only "SDCC" 290) "TMR0" 0x8A 0x8C);
    [reflexivity|lia|lia].
Defined.

(** X11. Under SDCC, SFR32E(name, (b3 << 24) | (b2 << 16) | (b1 << 8) | b0)
    declares the register whose four bytes are at [b0], [b1], [b2] and
    [b3], the lowest first, as in the header's example 0xE5E4E3E2, lsb at
    0xE2 and msb at 0xE5. *)
Theorem sdcc_sfr32e_unpacks
  (a : assignment) (name : string) (b0 b1 b2 b3 : Z) :
  select_dialect a = SDCC ->
  0 <= b0 <= 0xFF -> 0 <= b1 <= 0xFF -> 0 <= b2 <= 0xFF -> 0 <= b3 <= 0xFF ->
  exists st ts,
    include (predefine a) = Some st /\
    invoke st "SFR32E" [[Id name]; [Num (pack32 b0 b1 b2 b3) NoSuffix]]
      = Some ts /\
    read_dword SDCC ts = Some (name, [b0; b1; b2; b3]).
Proof.
  intros Hd H0 H1 H2 H3.
  destruct (sdcc_sfr32e_reading a name b0 b1 b2 b3 H0 H1 H2 H3)
    as (ts & Hi & Hr).
  exists (installed a SDCC), ts.
  rewrite include_installed, Hd. auto.
Qed.

Lemma sdcc_sfr32e_unpacks_witness :
  select_dialect (only "SDCC" 290) = SDCC /\
  0 <= 0xE2 <= 0xFF /\ 0 <= 0xE3 <= 0xFF /\ 0 <= 0xE4 <= 0xFF /\
  0 <= 0xE5 <= 0xFF /\
  exists st ts,
    include (predefine (only "SDCC" 290)) = Some st /\
    invoke st "SFR32E"
      [[Id "SUMR"]; [Num (pack32 0xE2 0xE3 0xE4 0xE5) NoSuffix]] = Some ts /\
    read_dword SDCC ts = Some ("SUMR", [0xE2; 0xE3; 0xE4; 0xE5]).
Proof.
  split; [reflexivity|]. repeat (split; [lia|]).
  apply (sdcc_sfr32e_unpacks (only "SDCC" 290) "SUMR" 0xE2 0xE3 0xE4 0xE5);
    [reflexivity|lia|lia|lia|lia].
Defined.

(** X12. Under SDCC the adjacent forms are the packed forms at adjacent
    addresses: SFR16(name, addr) declares the same register as
    SFR16E(name, ((addr+1) << 8) | addr) for every address up to 0xFE, and
    SFR32(name, addr) the same register as SFR32E with the four addresses
    addr, addr+1, addr+2, addr+3 for every address up to 0xFC. *)
Theorem sdcc_adjacent_forms_are_packed_forms
  (a : assignment) (name : string) (addr : Z) :
  select_dialect a = SDCC ->
  0 <= addr <= 0xFE ->
  exists st,
    include (predefine a) = Some st /\
    (exists t16 t16e,
       invoke st "SFR16" [[Id name]; [Num addr NoSuffix]] = Some t16 /\
       invoke st "SFR16E"
         [[Id name]; [Num (pack16 addr (addr + 1)) NoSuffix]] = Some t16e /\
       read_word SDCC false t16 = Some (name, (addr, addr + 1)) /\
       read_word SDCC false t16e = read_word SDCC false t16) /\
    (addr <= 0xFC ->
     exists t32 t32e,
       invoke st "SFR32" [[Id name]; [Num addr NoSuffix]] = Some t32 /\
       invoke st "SFR32E"
         [[Id name];
          [Num (pack32 addr (addr + 1) (addr + 2) (addr + 3)) NoSuffix]]
         = Some t32e /\
       read_dword SDCC t32
         = Some (name, [addr; addr + 1; addr + 2; addr + 3]) /\
       read_dword SDCC t32e = read_dword SDCC t32).
Proof.
  intros Hd Ha. exists (installed a SDCC).
  rewrite include_installed, Hd. split; [reflexivity|]. split.
  - destruct (sdcc_sfr16_reading a name addr ltac:(lia)) as (t & Hi & Hr).
    destruct (sdcc_sfr16e_reading a name addr (addr + 1) ltac:(lia)
                ltac:(lia)) as (t' & Hi' & Hr').
    rewrite Z.mod_small in Hr by lia.
    exists t, t'. rewrite Hr, Hr'. auto.
  - intros Hc.
    destruct (sdcc_sfr32_reading a name addr ltac:(lia)) as (t & Hi & Hr).
    destruct (sdcc_sfr32e_reading a name addr (addr + 1) (addr + 2)
                (addr + 3) ltac:(lia) ltac:(lia) ltac:(lia) ltac:(lia))
      as (t' & Hi' & Hr').
    exists t, t'. rewrite Hr, Hr'. auto.
Qed.

Lemma sdcc_adjacent_forms_are_packed_forms_witness :
  select_dialect (only "__SDCC" 1) = SDCC /\
  0 <= 0x93 <= 0xFE /\
  exists st,
    include (predefine (only "__SDCC" 1)) = Some st /\
    (exists t16 t16e,
       invoke st "SFR16" [[Id "R"]; [Num 0x93 NoSuffix]] = Some t16 /\
       invoke st "SFR16E"
         [[Id "R"]; [Num (pack16 0x93 (0x93 + 1)) NoSuffix]] = Some t16e /\
       read_word SDCC false t16 = Some ("R", (0x93, 0x93 + 1)) /\
       read_word SDCC false t16e = read_word SDCC false t16) /\
    (0x93 <= 0xFC ->
     exists t32 t32e,
       invoke st "SFR32" [[Id "R"]; [Num 0x93 NoSuffix]] = Some t32 /\
       invoke st "SFR32E"
         [[Id "R"];
          [Num (pack32 0x93 (0x93 + 1) (0x93 + 2) (0x93 + 3)) NoSuffix]]
         = Some t32e /\
       read_dword SDCC t32
         = Some ("R", [0x93; 0x93 + 1; 0x93 + 2; 0x93 + 3]) /\
       read_dword SDCC t32e = read_dword SDCC t32).
Proof.
  split; [reflexivity|]. split; [lia|].
  apply (sdcc_adjacent_forms_are_packed_forms (only "__SDCC" 1) "R" 0x93);
    [reflexivity|lia].
Defined.

(** X13. SFR16 does not check its address. Under SDCC the operand is
    computed in 16 bits, so on the whole range of a byte the high byte of
    SFR16(name, addr) is at (addr + 1) mod 256: at 0xFF it is at address 0,
    not next to the low byte. The other compilers are given the address
    and put the high byte at addr + 1, 0x100 at 0xFF. *)
Theorem sfr16_at_the_top_of_the_sfr_space
  (a : assignment) (name : string) (addr : Z) :
  supports_sfr16 (select_dialect a) (newer a) = true ->
  0 <= addr <= 0xFF ->
  exists st ts,
    include (predefine a) = Some st /\
    invoke st "SFR16" [[Id name]; [Num addr NoSuffix]] = Some ts /\
    read_word (select_dialect a) (newer a) ts
      = Some (name, (addr, match select_dialect a with
                           | SDCC => (addr + 1) mod 256
                           | _ => addr + 1
                           end)).
Proof.
  intros Hs Ha.
  assert (Hn : value (ENum addr NoSuffix) = Some addr)
    by (apply value_constant; lia).
  exists (installed a (select_dialect a)).
  rewrite include_installed.
  destruct (select_dialect a) eqn:Hd; try discriminate Hs.
  - destruct (sdcc_sfr16_reading a name addr Ha) as (ts & Hi & Hr).
    exists ts. split; [reflexivity|]. split; [exact Hi|].
    unfold read_word in *. cbn [word_syntax] in *. exact Hr.
  - rewrite invoke_installed by reflexivity. destruct (newer a);
      compute_expansion; eexists; (split; [reflexivity|]);
      (split; [reflexivity|]);
      unfold read_word; cbn [word_syntax]; compute_read; cbv beta iota;
      rewrite Hn; reflexivity.
  - rewrite invoke_installed by reflexivity. destruct (newer a);
      compute_expansion; eexists; (split; [reflexivity|]);
      (split; [reflexivity|]);
      unfold read_word; cbn [word_syntax]; compute_read; cbv beta iota;
      rewrite Hn; reflexivity.
  - rewrite invoke_installed by reflexivity. destruct (newer a);
      compute_expansion; eexists; (split; [reflexivity|]);
      (split; [reflexivity|]);
      unfold read_word; cbn [word_syntax]; compute_read; cbv beta iota;
      rewrite Hn; reflexivity.
  - rewrite invoke_installed by reflexivity. destruct (newer a);
      try discriminate Hs;
      compute_expansion; eexists; (split; [reflexivity|]);
      (split; [reflexivity|]);
      unfold read_word; cbn [word_syntax]; compute_read; cbv beta iota;
      rewrite Hn; reflexivity.
  - rewrite invoke_installed by reflexivity. destruct (newer a);
      compute_expansion; eexists; (split; [reflexivity|]);
      (split; [reflexivity|]);
      unfold read_word; cbn [word_syntax]; compute_read; cbv beta iota;
      rewrite Hn; reflexivity.
Qed.

Lemma sfr16_at_the_top_of_the_sfr_space_witness :
  supports_sfr16 (select_dialect (only "SDCC" 290)) (newer (only "SDCC" 290))
    = true /\
  0 <= 0xFF <= 0xFF /\
  exists st ts,
    include (predefine (only "SDCC" 290)) = Some st /\
    invoke st "SFR16" [[Id "TOP"]; [Num 0xFF NoSuffix]] = Some ts /\
    read_word (select_dialect (only "SDCC" 290)) (newer (only "SDCC" 290)) ts
      = Some ("TOP", (0xFF, match select_dialect (only "SDCC" 290) with
                            | SDCC => (0xFF + 1) mod 256
                            | _ => 0xFF + 1
                            end)).
Proof.
  split; [reflexivity|]. split; [lia|].
  apply (sfr16_at_the_top_of_the_sfr_space (only "SDCC" 290) "TOP" 0xFF);
    [reflexivity|lia].
Defined.

(* ================================================================== *)
(** ** Invocations with the wrong number of arguments, and ASM *)

Lemma bind_fixed (ps : list string) (args : list (list token)) :
  bind ps false args = None <-> List.length args <> List.length ps.
Proof.
  revert args. induction ps as [|p ps IH]; intros [|x args]; cbn [bind length].
  - split; [discriminate|intros H; destruct (H eq_refl)].
  - split; [intros _; discriminate|reflexivity].
  - split; [intros _; discriminate|reflexivity].
  - specialize (IH args). destruct (bind ps false args).
    + split; [discriminate|]. intros H.
      assert (X : Some l = None) by (apply IH; congruence).
      discriminate X.
    + split; [|reflexivity]. intros _ H. injection H as H.
      apply (proj1 IH eq_refl H).
Qed.

(** The declarators are function-like, not variadic, of the arity of the
    interface, in every branch. *)
Lemma declarator_signature (d : dialect) (nw : bool) (n : string) :
  In n declarators ->
  exists m ps, assoc n (descriptor d nw) = Some m /\
               params m = Some ps /\ variadic m = false /\
               List.length ps = arity n.
Proof.
  intros H. cbn in H.
  destruct d, nw;
    repeat (destruct H as [<-|H];
            [eexists; eexists; split; [vm_compute; reflexivity|];
             repeat split|]);
    destruct H.
Qed.

(** X14. Under every assignment, the invocation of a declarator fails
    exactly when the number of its arguments is not the arity of the
    interface: 2 arguments, 3 for SBIT and 10 for SFRBIT, in every dialect
    alike. *)
Theorem wrong_argument_count_fails
  (a : assignment) (n : string) (args : list (list token)) :
  In n declarators ->
  exists st,
    include (predefine a) = Some st /\
    (invoke st n args = None <-> List.length args <> arity n).
Proof.
  intros Hn. exists (installed a (select_dialect a)).
  split; [apply include_installed|].
  rewrite invoke_installed
    by (apply declarator_free; unfold entry_points; apply in_or_app; auto).
  destruct (declarator_signature (select_dialect a) (newer a) n Hn)
    as (m & ps & Hm & Hp & Hv & Hl).
  rewrite Hm. unfold expand. rewrite Hp, Hv, <- Hl.
  rewrite <- bind_fixed. destruct (bind ps false args); split;
    intros H; (discriminate H || reflexivity).
Qed.

Lemma wrong_argument_count_fails_witness :
  In "SBIT" declarators /\
  exists st,
    include (predefine (only "SDCC" 290)) = Some st /\
    (invoke st "SBIT" [[Id "P0_1"]; [Num 0x80 NoSuffix]] = None <->
     List.length [[Id "P0_1"]; [Num 0x80 NoSuffix]] <> arity "SBIT").
Proof.
  split; [cbn; tauto|].
  apply (wrong_argument_count_fails (only "SDCC" 290) "SBIT"
           [[Id "P0_1"]; [Num 0x80 NoSuffix]]).
  cbn; tauto.
Defined.

Lemma bind_variadic (args : list (list token)) :
  bind [] true args = Some [("__VA_ARGS__", join_commas args)].
Proof. destruct args; reflexivity. Qed.

(** X15. Where it is defined, ASM takes any number of arguments and never
    fails: under SDCC and Keil it expands to its arguments as they were
    written, commas included; under IAR to a call of asm on the string
    that spells them. *)
Theorem asm_passes_its_arguments (a : assignment) (args : list (list token)) :
  has_assembly (select_dialect a) = true ->
  exists st,
    include (predefine a) = Some st /\
    invoke st "ASM" args
      = Some (match select_dialect a with
              | IAR => lex "asm(" ++ [Quote (join_commas args)] ++ lex ");"
              | _ => join_commas args
              end).
Proof.
  intros H. exists (installed a (select_dialect a)).
  split; [apply include_installed|].
  rewrite invoke_installed by reflexivity.
  destruct (select_dialect a), (newer a); try discriminate H;
    match goal with
    | |- context [assoc ?n (descriptor ?d ?b)] =>
        let r := eval vm_compute in (assoc n (descriptor d b)) in
        replace (assoc n (descriptor d b)) with r by (vm_compute; reflexivity)
    end;
    cbv beta iota; unfold expand; cbn [params variadic body];
    rewrite bind_variadic; generalize (join_commas args); intros x;
    cbn; rewrite ?app_nil_r; reflexivity.
Qed.

Lemma asm_passes_its_arguments_witness :
  has_assembly (select_dialect (only "__IAR_SYSTEMS_ICC__" 8)) = true /\
  exists st,
    include (predefine (only "__IAR_SYSTEMS_ICC__" 8)) = Some st /\
    invoke st "ASM" [[Id "mov"; Id "a"]; [Id "b"]]
      = Some (match select_dialect (only "__IAR_SYSTEMS_ICC__" 8) with
              | IAR => lex "asm("
                       ++ [Quote (join_commas [[Id "mov"; Id "a"]; [Id "b"]])]
                       ++ lex ");"
              | _ => join_commas [[Id "mov"; Id "a"]; [Id "b"]]
              end).
Proof.
  split; [reflexivity|].
  apply (asm_passes_its_arguments (only "__IAR_SYSTEMS_ICC__" 8)
           [[Id "mov"; Id "a"]; [Id "b"]]).
  reflexivity.
Defined.

(** X16. The header defines __SFRBIT_IN_USE__ under IAR and under no other
    dialect: the symbol is defined exactly when SFRBIT declares the
    register and its bits, that is when its replacement list is not
    empty and the dialect is not the default one. *)
Theorem sfrbit_in_use_iff_iar (a : assignment) :
  exists st,
    include (predefine a) = Some st /\
    defined "__SFRBIT_IN_USE__" st = dialect_eqb (select_dialect a) IAR /\
    (defined "__SFRBIT_IN_USE__" st = true <->
     select_dialect a <> Default /\
     nonempty_macro (lookup "SFRBIT" st) = true).
Proof.
  exists (installed a (select_dialect a)).
  split; [apply include_installed|].
  unfold defined. rewrite !lookup_installed by reflexivity.
  destruct (select_dialect a), (newer a);
    match goal with
    | |- context [nonempty_macro ?o] =>
        let r := eval vm_compute in (nonempty_macro o) in
        replace (nonempty_macro o) with r by (vm_compute; reflexivity)
    end;
    match goal with
    | |- context [assoc ?n ?l] =>
        let r := eval vm_compute in (assoc n l) in
        replace (assoc n l) with r by (vm_compute; reflexivity)
    end;
    cbn [dialect_eqb]; (split; [reflexivity|]);
    first
      [ solve [split; [intros H; discriminate H
                      |intros [_ H]; discriminate H]]
      | solve [split; [intros H; discriminate H
                      |intros [H _]; destruct (H eq_refl)]]
      | solve [split; [intros _; split; [discriminate|reflexivity]
                      |reflexivity]] ].
Qed.

(* ================================================================== *)
(** ** More on SBIT *)

(** On the bit addresses of the SFR space. *)
Lemma sfr_bit_arithmetic (addr bit : Z) :
  0x80 <= addr <= 0xFF -> 0 <= bit <= 7 ->
  value (EAdd (ENum addr NoSuffix) (ENum bit NoSuffix)) = Some (addr + bit) /\
  ((Z.land (addr + bit) 0xF8 = addr /\ Z.land (addr + bit) 7 = bit)
   <-> addr mod 8 = 0) /\
  (addr mod 8 = 0 ->
   value (EXor (ENum addr NoSuffix) (ENum bit NoSuffix)) = Some (addr + bit)).
Proof.
  intros Ha Hb.
  pose (Q := fun addr bit =>
    (match value (EAdd (ENum addr NoSuffix) (ENum bit NoSuffix)) with
     | Some v => v =? addr + bit
     | None => false
     end
     && Bool.eqb ((Z.land (addr + bit) 0xF8 =? addr)
                  && (Z.land (addr + bit) 7 =? bit))
                 (addr mod 8 =? 0)
     && (negb (addr mod 8 =? 0)
         || match value (EXor (ENum addr NoSuffix) (ENum bit NoSuffix)) with
            | Some v => v =? addr + bit
            | None => false
            end))%bool).
  pose (P := fun addr =>
    forallb (Q addr) (map (fun i => 0 + Z.of_nat i) (seq 0 8))).
  assert (HP : P addr = true).
  { apply (range_forallb P 0x80 128); [vm_compute; reflexivity|lia]. }
  assert (HQ : Q addr bit = true)
    by (apply (range_forallb (Q addr) 0 8 HP); lia).
  unfold Q in HQ.
  apply andb_prop in HQ. destruct HQ as [HQ H3].
  apply andb_prop in HQ. destruct HQ as [H1 H2].
  split; [|split].
  - destruct (value (EAdd _ _)) as [v|]; [|discriminate H1].
    apply Z.eqb_eq in H1. subst v. reflexivity.
  - apply Bool.eqb_prop in H2. split.
    + intros [Hx Hy]. apply Z.eqb_eq.
      rewrite <- H2. apply andb_true_intro. split; apply Z.eqb_eq; assumption.
    + intros Hm. apply Z.eqb_eq in Hm. rewrite Hm in H2.
      apply andb_prop in H2. destruct H2 as [Hx Hy].
      split; apply Z.eqb_eq; assumption.
  - intros Hm. apply Z.eqb_eq in Hm. rewrite Hm in H3. cbn [negb orb] in H3.
    destruct (value (EXor _ _)) as [v|]; [|discriminate H3].
    apply Z.eqb_eq in H3. subst v. reflexivity.
Qed.

(** X17. Under Keil the operand of SBIT is written [addr ^ bit]. For a
    bit-addressable register, that is an address that is a multiple of 8,
    the operand read as an exclusive or is worth addr + bit, the bit
    address that the other compilers are given, and that bit address is
    bit [bit] of the register at [addr]. *)
Theorem keil_sbit_operand_is_the_bit_address
  (a : assignment) (name : string) (addr bit : Z) :
  select_dialect a = Keil ->
  bit_addressable addr = true -> 0 <= bit <= 7 ->
  exists st ts,
    include (predefine a) = Some st /\
    invoke st "SBIT" [[Id name]; [Num addr NoSuffix]; [Num bit NoSuffix]]
      = Some ts /\
    read (NameThenAddr (lex "sbit") (lex "=")) ts
      = Some (name, EXor (ENum addr NoSuffix) (ENum bit NoSuffix)) /\
    value (EXor (ENum addr NoSuffix) (ENum bit NoSuffix))
      = Some (addr + bit) /\
    bit_of_address (addr + bit) = Some (addr, bit).
Proof.
  intros Hd Ha Hb.
  destruct (bit_address_value addr bit Ha Hb) as [_ Hp].
  unfold bit_addressable in Ha.
  apply andb_prop in Ha. destruct Ha as [Ha Hm].
  apply andb_prop in Ha. destruct Ha as [H1 H2].
  apply Z.leb_le in H1, H2. apply Z.eqb_eq in Hm.
  destruct (sfr_bit_arithmetic addr bit ltac:(lia) Hb) as (_ & _ & Hx).
  exists (installed a (select_dialect a)).
  rewrite include_installed, invoke_installed by reflexivity. rewrite Hd.
  destruct (newer a); compute_expansion; eexists; (split; [reflexivity|]);
    (split; [reflexivity|]); compute_read; auto.
Qed.

Lemma keil_sbit_operand_is_the_bit_address_witness :
  select_dialect (only "__CX51__" 1) = Keil /\
  bit_addressable 0xA8 = true /\ 0 <= 7 <= 7 /\
  exists st ts,
    include (predefine (only "__CX51__" 1)) = Some st /\
    invoke st "SBIT" [[Id "EA"]; [Num 0xA8 NoSuffix]; [Num 7 NoSuffix]]
      = Some ts /\
    read (NameThenAddr (lex "sbit") (lex "=")) ts
      = Some ("EA", EXor (ENum 0xA8 NoSuffix) (ENum 7 NoSuffix)) /\
    value (EXor (ENum 0xA8 NoSuffix) (ENum 7 NoSuffix)) = Some (0xA8 + 7) /\
    bit_of_address (0xA8 + 7) = Some (0xA8, 7).
Proof.
  split; [reflexivity|]. split; [reflexivity|]. split; [lia|].
  apply (keil_sbit_operand_is_the_bit_address (only "__CX51__" 1) "EA" 0xA8 7);
    [reflexivity|reflexivity|lia].
Defined.

(** X18. SBIT does not check that the register is bit-addressable. Under
    SDCC, Raisonance, Tasking and Crossware the declaration is placed at the
    bit address addr + bit, which is bit (addr + bit) mod 8 of the register
    at the multiple of 8 below it: it is bit [bit] of the register at
    [addr] exactly when [addr] is a multiple of 8. *)
Theorem sbit_needs_an_aligned_register
  (a : assignment) (name : string) (addr bit : Z) :
  select_dialect a = SDCC \/ select_dialect a = Raisonance \/
  select_dialect a = Tasking \/ select_dialect a = Crossware ->
  0x80 <= addr -> 0 <= bit <= 7 -> addr + bit <= 0xFF ->
  exists st ts,
    include (predefine a) = Some st /\
    invoke st "SBIT" [[Id name]; [Num addr NoSuffix]; [Num bit NoSuffix]]
      = Some ts /\
    read_bit (select_dialect a) ts
      = Some (name, (Z.land (addr + bit) 0xF8, Z.land (addr + bit) 7)) /\
    (read_bit (select_dialect a) ts = Some (name, (addr, bit))
     <-> addr mod 8 = 0).
Proof.
  intros Hd Ha Hb Hs.
  destruct (sfr_bit_arithmetic addr bit ltac:(lia) Hb) as (Hv & Hiff & _).
  assert (Hp : bit_of_address (addr + bit)
               = Some (Z.land (addr + bit) 0xF8, Z.land (addr + bit) 7)).
  { unfold bit_of_address.
    replace (0x80 <=? addr + bit) with true by (symmetry; apply Z.leb_le; lia).
    replace (addr + bit <=? 0xFF) with true by (symmetry; apply Z.leb_le; lia).
    reflexivity. }
  exists (installed a (select_dialect a)).
  rewrite include_installed, invoke_installed by reflexivity.
  assert (R : forall ts,
    read_bit (select_dialect a) ts
      = Some (name, (Z.land (addr + bit) 0xF8, Z.land (addr + bit) 7)) ->
    (read_bit (select_dialect a) ts = Some (name, (addr, bit))
     <-> addr mod 8 = 0)).
  { intros ts ->. rewrite <- Hiff. split.
    - intros [= H1 H2]. auto.
    - intros [H1 H2]. rewrite H1, H2. reflexivity. }
  destruct Hd as [Hd|[Hd|[Hd|Hd]]]; rewrite Hd in *;
    destruct (newer a); compute_expansion; eexists;
    (split; [reflexivity|]); (split; [reflexivity|]);
    (assert (X : forall A B : Prop, A -> (A -> B) -> A /\ B) by tauto);
    (apply X; [|apply R]);
    unfold read_bit; cbn [bit_syntax]; compute_read; cbv beta iota;
    rewrite Hv, Hp; reflexivity.
Qed.

Lemma sbit_needs_an_aligned_register_witness :
  (select_dialect (only "SDCC" 290) = SDCC \/
   select_dialect (only "SDCC" 290) = Raisonance \/
   select_dialect (only "SDCC" 290) = Tasking \/
   select_dialect (only "SDCC" 290) = Crossware) /\
  0x80 <= 0x81 /\ 0 <= 7 <= 7 /\ 0x81 + 7 <= 0xFF /\
  exists st ts,
    include (predefine (only "SDCC" 290)) = Some st /\
    invoke st "SBIT" [[Id "B"]; [Num 0x81 NoSuffix]; [Num 7 NoSuffix]]
      = Some ts /\
    read_bit (select_dialect (only "SDCC" 290)) ts
      = Some ("B", (Z.land (0x81 + 7) 0xF8, Z.land (0x81 + 7) 7)) /\
    (read_bit (select_dialect (only "SDCC" 290)) ts = Some ("B", (0x81, 7))
     <-> 0x81 mod 8 = 0).
Proof.
  split; [left; reflexivity|]. repeat (split; [lia|]).
  apply (sbit_needs_an_aligned_register (only "SDCC" 290) "B" 0x81 7);
    [left; reflexivity|lia|lia|lia].
Defined.

(* ================================================================== *)
(** ** Parameters that a macro names and does not bind *)

(** X19. In every branch, each macro of the header names, of the parameter
    names of the interface, only its own parameters, with one exception:
    SFR32 in the branch of IAR names addr, which it does not bind. *)
Theorem only_iar_sfr32_names_an_unbound_parameter
  (d : dialect) (nw : bool) (n : string) (m : macro) :
  In (n, m) (descriptor d nw) ->
  unbound m = if dialect_eqb d IAR && String.eqb n "SFR32"
              then ["addr"] else [].
Proof.
  intros H.
  pose (ok := fun nm : string * macro =>
    if list_eq_dec string_dec (unbound (snd nm))
         (if dialect_eqb d IAR && String.eqb (fst nm) "SFR32"
          then ["addr"] else [])
    then true else false).
  assert (Hall : forallb ok (descriptor d nw) = true)
    by (unfold ok; destruct d, nw; vm_compute; reflexivity).
  rewrite forallb_forall in Hall. specialize (Hall (n, m) H).
  unfold ok in Hall. cbn [fst snd] in Hall.
  destruct (list_eq_dec string_dec _ _) as [E|_]; [exact E|discriminate Hall].
Qed.

Lemma only_iar_sfr32_names_an_unbound_parameter_witness :
  In ("SFR32", function_like p_full
                 "__sfr __no_init volatile unsigned long name @ addr")
     (descriptor IAR false) /\
  unbound (function_like p_full
             "__sfr __no_init volatile unsigned long name @ addr")
    = if dialect_eqb IAR IAR && String.eqb "SFR32" "SFR32"
      then ["addr"] else [].
Proof.
  assert (H : In ("SFR32", function_like p_full
                 "__sfr __no_init volatile unsigned long name @ addr")
                 (descriptor IAR false)).
  { vm_compute. tauto. }
  split; [exact H|].
  exact (only_iar_sfr32_names_an_unbound_parameter IAR false "SFR32" _ H).
Defined.

(** X20. Under Hi-Tech and Wickenhaeuser the third argument of SBIT lands
    twice in the expansion, once in the address and once where the
    replacement list has the type keyword [bit]: whatever the arguments,
    the expansion has the keyword only if an argument brings it. *)
Theorem sbit_argument_replaces_the_keyword
  (a : assignment) (name addr b : list token) :
  select_dialect a = HiTech \/ select_dialect a = Wickenhaeuser ->
  exists st ts,
    include (predefine a) = Some st /\
    invoke st "SBIT" [name; addr; b] = Some ts /\
    ts = (match select_dialect a with
          | HiTech => lex "volatile"
          | _ => lex "unsigned char"
          end) ++ b ++ name ++ lex "@ (" ++ addr ++ lex "+" ++ b ++ lex ")" /\
    mentions (Id "bit") ts
      = (mentions (Id "bit") name || mentions (Id "bit") addr
         || mentions (Id "bit") b)%bool.
Proof.
  intros Hd. exists (installed a (select_dialect a)).
  rewrite include_installed, invoke_installed by reflexivity.
  assert (M : forall pre : list token,
    mentions (Id "bit") pre = false ->
    mentions (Id "bit")
      (pre ++ b ++ name ++ lex "@ (" ++ addr ++ lex "+" ++ b ++ lex ")")
    = (mentions (Id "bit") name || mentions (Id "bit") addr
       || mentions (Id "bit") b)%bool).
  { intros pre Hp. unfold mentions in *. rewrite !existsb_app, Hp.
    replace (existsb (token_eqb (Id "bit")) (lex "@ (")) with false
      by (vm_compute; reflexivity).
    replace (existsb (token_eqb (Id "bit")) (lex "+")) with false
      by (vm_compute; reflexivity).
    replace (existsb (token_eqb (Id "bit")) (lex ")")) with false
      by (vm_compute; reflexivity).
    destruct (existsb _ name), (existsb _ addr), (existsb _ b); reflexivity. }
  destruct Hd as [Hd|Hd]; rewrite Hd; destruct (newer a);
    compute_expansion; eexists; (split; [reflexivity|]);
    (split; [reflexivity|]);
    (assert (X : forall (A B : Prop), A -> (A -> B) -> A /\ B) by tauto);
    (apply X; [vm_compute; reflexivity|]);
    intros ->; apply M; vm_compute; reflexivity.
Qed.

Lemma sbit_argument_replaces_the_keyword_witness :
  (select_dialect (only "HI_TECH_C" 1) = HiTech \/
   select_dialect (only "HI_TECH_C" 1) = Wickenhaeuser) /\
  exists st ts,
    include (predefine (only "HI_TECH_C" 1)) = Some st /\
    invoke st "SBIT" [[Id "P0_1"]; [Num 0x80 NoSuffix]; [Num 1 NoSuffix]]
      = Some ts /\
    ts = (match select_dialect (only "HI_TECH_C" 1) with
          | HiTech => lex "volatile"
          | _ => lex "unsigned char"
          end) ++ [Num 1 NoSuffix] ++ [Id "P0_1"] ++ lex "@ ("
         ++ [Num 0x80 NoSuffix] ++ lex "+" ++ [Num 1 NoSuffix] ++ lex ")" /\
    mentions (Id "bit") ts
      = (mentions (Id "bit") [Id "P0_1"]
         || mentions (Id "bit") [Num 0x80 NoSuffix]
         || mentions (Id "bit") [Num 1 NoSuffix])%bool.
Proof.
  split; [left; reflexivity|].
  apply (sbit_argument_replaces_the_keyword (only "HI_TECH_C" 1)
           [Id "P0_1"] [Num 0x80 NoSuffix] [Num 1 NoSuffix]).
  left; reflexivity.
Defined.
